(** * Capstone BO project: the TuRBO notebook

    A shallow embedding of the Python code of the TuRBO notebook
    ([TurboState], [update_state], [generate_batch],
    [next_query_via_TurBO] and the driver loop) together with the
    properties of its trust-region bookkeeping.

    Number model.
    - A Python [float] is an IEEE 754 binary64 value: [spec_float] with
      the operations of [SpecFloat] at precision 53 and [emax = 1024]
      (round to nearest, ties to even), bit for bit.
    - A Python [int] is a [Z].
    - An entry of a torch tensor is a [tnum] (introduced with
      [generate_batch]): an exact rational, an infinity or NaN.  The
      special values follow IEEE 754; the rounding of tensor arithmetic
      is not modelled. *)

From Stdlib Require Import ZArith QArith Qpower List Bool String Ascii Lia Lqa.
From Stdlib Require Import Floats.SpecFloat.
Import ListNotations.

Local Open Scope Z_scope.

(** ** Python exceptions and the result of a call *)

(** The exceptions a run can end with.  [AssertionError] is raised by an
    [assert] statement of the notebook itself; [UnboundLocalError],
    [ValueError], [ZeroDivisionError] and [OverflowError] are raised by
    the Python runtime and its builtins; [LibraryError] stands for any
    exception raised inside torch, gpytorch or botorch. *)
Inductive exn : Type :=
| AssertionError
| UnboundLocalError
| ValueError
| ZeroDivisionError
| OverflowError
| LibraryError.

Inductive result (A : Type) : Type :=
| Ok (a : A)
| Raise (e : exn).

Arguments Ok {A} a.
Arguments Raise {A} e.

Definition bind {A B : Type} (r : result A) (k : A -> result B) : result B :=
  match r with
  | Ok a => k a
  | Raise e => Raise e
  end.

Declare Scope py_scope.
Delimit Scope py_scope with py.
Notation "x <- c ;; k" := (bind c (fun x => k))
  (at level 61, c at next level, right associativity) : py_scope.

Definition exn_eqb (a b : exn) : bool :=
  match a, b with
  | AssertionError, AssertionError
  | UnboundLocalError, UnboundLocalError
  | ValueError, ValueError
  | ZeroDivisionError, ZeroDivisionError
  | OverflowError, OverflowError
  | LibraryError, LibraryError => true
  | _, _ => false
  end.

(** ** Python floats (binary64) *)

Module PyFloat.

Definition float := spec_float.

Definition prec : Z := 53.
Definition emax : Z := 1024.

Definition add (x y : float) : float := SFadd prec emax x y.
Definition sub (x y : float) : float := SFsub prec emax x y.
Definition mul (x y : float) : float := SFmul prec emax x y.
Definition div (x y : float) : float := SFdiv prec emax x y.

(** [math.fabs] *)
Definition fabs (x : float) : float := SFabs x.

(** [x < y], [x <= y], [x > y]: false as soon as one side is NaN. *)
Definition ltb (x y : float) : bool := SFltb x y.
Definition leb (x y : float) : bool := SFleb x y.
Definition gtb (x y : float) : bool := SFltb y x.

Definition is_nan (x : float) : bool :=
  match x with S754_nan => true | _ => false end.

Definition is_finite (x : float) : bool :=
  match x with S754_zero _ | S754_finite _ _ _ => true | _ => false end.

(** Well-formed binary64 values: the mantissa and exponent of a finite
    number are in canonical form. *)
Definition valid (x : float) : bool := valid_binary prec emax x.

(** The double nearest to the integer [n]; the value of [float(n)] when
    it does not overflow. *)
Definition of_Z (n : Z) : float := binary_normalize prec emax n 0 false.

(** The double nearest to [a / b]: the value of a decimal literal such
    as [1e-3] = 1/1000 (the division is correctly rounded). *)
Definition ratio (a b : Z) : float := div (of_Z a) (of_Z b).

Definition zero : float := S754_zero false.
Definition one : float := Eval vm_compute in of_Z 1.
Definition two : float := Eval vm_compute in of_Z 2.
Definition four : float := Eval vm_compute in of_Z 4.
Definition twenty : float := Eval vm_compute in of_Z 20.
Definition inf : float := S754_infinity false.
Definition neg_inf : float := S754_infinity true.
Definition nan : float := S754_nan.

(** The builtin [max(a, b)] and [min(a, b)]: the first argument is kept
    unless the second compares strictly greater (smaller). *)
Definition max2 (a b : float) : float := if gtb b a then b else a.
Definition min2 (a b : float) : float := if ltb b a then b else a.

(** The builtin [max(iterable)]: [ValueError] on an empty iterable,
    otherwise a left-to-right scan that replaces the running maximum by
    an item comparing strictly greater. *)
Definition max_list (l : list float) : result float :=
  match l with
  | [] => Raise ValueError
  | x :: r => Ok (fold_left max2 r x)
  end.

(** Conversion of an [int] operand to [float]: [OverflowError] when the
    integer is too large for a double. *)
Definition of_int (n : Z) : result float :=
  match of_Z n with
  | S754_infinity _ => Raise OverflowError
  | x => Ok x
  end.

(** [x / n] for a float [x] and an int [n]. *)
Definition div_int (x : float) (n : Z) : result float :=
  (d <- of_int n ;;
   if n =? 0 then Raise ZeroDivisionError else Ok (div x d))%py.

(** [math.ceil]: [ValueError] on NaN, [OverflowError] on an infinity,
    otherwise the least integer not below the value. *)
Definition ceil (x : float) : result Z :=
  match x with
  | S754_nan => Raise ValueError
  | S754_infinity _ => Raise OverflowError
  | S754_zero _ => Ok 0
  | S754_finite s m e =>
      let n := if s then Z.neg m else Z.pos m in
      Ok (if 0 <=? e then n * 2 ^ e else - ((- n) / 2 ^ (- e)))
  end.

(** The rounding record of an exact intermediate result. *)
Definition exact_record (m : Z) : shr_record :=
  {| shr_m := m; shr_r := false; shr_s := false |}.

(** The floating-point dtypes of the tensors the notebook builds:
    float32 ([.to(torch.float32)], [.float()], the default dtype of
    [torch.tensor]) and float64 ([torch.from_numpy] on the loaded
    arrays).  A float32 value is held as the double of the same value. *)
Inductive dtype : Type :=
| float32
| float64.

(** Conversion of a double to float32, [tensor.to(torch.float32)] on
    one entry: round to binary32 (to nearest, ties to even; infinity on
    overflow), the result written again as a double. *)
Definition to_float32 (x : float) : float :=
  match x with
  | S754_finite s m e =>
      match binary_normalize 24 128 (if s then Z.neg m else Z.pos m) e s with
      | S754_finite s' m' e' =>
          binary_normalize prec emax (if s' then Z.neg m' else Z.pos m') e' s'
      | y => y
      end
  | _ => x
  end.

(** A Python float that meets a tensor of dtype [d] in a comparison or
    an arithmetic operation is converted to [d] first. *)
Definition cast (d : dtype) (x : float) : float :=
  match d with
  | float32 => to_float32 x
  | float64 => x
  end.

End PyFloat.

Import PyFloat.

(** ** The trust-region state *)

Module Turbo.

(** The dataclass [TurboState], fields in declaration order. *)
Record TurboState : Type := mkTurboState {
  dim : Z;
  batch_size : Z;
  length : float;
  length_min : float;
  length_max : float;
  failure_counter : Z;
  failure_tolerance : Z;
  success_counter : Z;
  success_tolerance : Z;
  best_value : float;
  restart_triggered : bool
}.

(** Literals of the class body. *)
Definition lit_0_8 : float := Eval vm_compute in ratio 8 10.
Definition lit_0_5_pow_7 : float :=
  Eval vm_compute in binary_normalize prec emax 1 (-7) false.
Definition lit_1_6 : float := Eval vm_compute in ratio 16 10.
Definition lit_1e_3 : float := Eval vm_compute in ratio 1 1000.

(** [__post_init__]: [math.ceil(max([4.0 / batch_size,
    float(dim) / batch_size]))]. *)
Definition post_init_failure_tolerance (dim batch_size : Z) : result Z :=
  (a <- div_int four batch_size ;;
   d <- of_int dim ;;
   b <- div_int d batch_size ;;
   m <- max_list [a; b] ;;
   ceil m)%py.

(** The constructor generated by [@dataclass]: every field but [dim] has
    a default, and [failure_tolerance] is overwritten by
    [__post_init__] whatever was passed for it. *)
Definition TurboState_init
    (dim batch_size : Z) (length length_min length_max : float)
    (failure_counter success_counter success_tolerance : Z)
    (best_value : float) (restart_triggered : bool) : result TurboState :=
  (ft <- post_init_failure_tolerance dim batch_size ;;
   Ok (mkTurboState dim batch_size length length_min length_max
         failure_counter ft success_counter success_tolerance
         best_value restart_triggered))%py.

(** [TurboState(dim = d, best_value = b)]: the call of the driver loop,
    all other fields at their defaults. *)
Definition TurboState_default (d : Z) (b : float) : result TurboState :=
  TurboState_init d 1 lit_0_8 lit_0_5_pow_7 lit_1_6 0 0 3 b false.

(** The batch [Y_next] handed to [update_state]: a floating-point
    tensor, given by its dtype and the list of its entries. *)
Record ftensor : Type := mkTensor {
  tensor_dtype : dtype;
  entries : list float
}.

(** [torch.tensor(values, dtype = d)] *)
Definition torch_tensor (d : dtype) (values : list float) : ftensor :=
  mkTensor d (map (cast d) values).

(** [state.best_value + 1e-3 * math.fabs(state.best_value)], computed on
    Python floats: [best_value] is the [float] of the dataclass
    annotation, which is also what the third statement of
    [update_state] stores ([.item()]). *)
Definition improvement_threshold (state : TurboState) : float :=
  add (best_value state) (mul lit_1e_3 (fabs (best_value state))).

(** The test of the first [if] of [update_state], for [y = max(Y_next)],
    an entry of a tensor of dtype [d].  The left side of [>] is a
    tensor and the right side a Python float: torch converts the float
    to the dtype of the tensor and compares there. *)
Definition improved (state : TurboState) (d : dtype) (y : float) : bool :=
  gtb y (cast d (improvement_threshold state)).

(** First statement of [update_state]: count a success or a failure. *)
Definition count_outcome (state : TurboState) (d : dtype) (y : float)
  : TurboState :=
  if improved state d y then
    mkTurboState (dim state) (batch_size state) (length state)
      (length_min state) (length_max state)
      0 (failure_tolerance state)
      (success_counter state + 1) (success_tolerance state)
      (best_value state) (restart_triggered state)
  else
    mkTurboState (dim state) (batch_size state) (length state)
      (length_min state) (length_max state)
      (failure_counter state + 1) (failure_tolerance state)
      0 (success_tolerance state)
      (best_value state) (restart_triggered state).

(** Second statement: expand or shrink the trust region. *)
Definition resize_region (state : TurboState) : TurboState :=
  if success_counter state =? success_tolerance state then
    mkTurboState (dim state) (batch_size state)
      (min2 (mul two (length state)) (length_max state))
      (length_min state) (length_max state)
      (failure_counter state) (failure_tolerance state)
      0 (success_tolerance state)
      (best_value state) (restart_triggered state)
  else if failure_counter state =? failure_tolerance state then
    mkTurboState (dim state) (batch_size state)
      (div (length state) two)
      (length_min state) (length_max state)
      0 (failure_tolerance state)
      (success_counter state) (success_tolerance state)
      (best_value state) (restart_triggered state)
  else state.

(** Third statement: [state.best_value = max(state.best_value,
    max(Y_next).item())]. *)
Definition record_best (state : TurboState) (y : float) : TurboState :=
  mkTurboState (dim state) (batch_size state) (length state)
    (length_min state) (length_max state)
    (failure_counter state) (failure_tolerance state)
    (success_counter state) (success_tolerance state)
    (max2 (best_value state) y) (restart_triggered state).

(** Fourth statement: raise the restart flag. *)
Definition flag_restart (state : TurboState) : TurboState :=
  if ltb (length state) (length_min state) then
    mkTurboState (dim state) (batch_size state) (length state)
      (length_min state) (length_max state)
      (failure_counter state) (failure_tolerance state)
      (success_counter state) (success_tolerance state)
      (best_value state) true
  else state.

(** [update_state(state, Y_next)].  [Y_next] is the batch of new
    observations; [max(Y_next)] is the builtin [max], which scans the
    entries of the tensor and raises [ValueError] on an empty batch. *)
Definition update_state (state : TurboState) (Y_next : ftensor)
  : result TurboState :=
  (y <- max_list (entries Y_next) ;;
   let state := count_outcome state (tensor_dtype Y_next) y in
   let state := resize_region state in
   y' <- max_list (entries Y_next) ;;
   let state := record_best state y' in
   let state := flag_restart state in
   Ok state)%py.

(** Successive calls [state = update_state(state, Y)] for the batches
    of a list, in order. *)
Fixpoint update_states (state : TurboState) (batches : list ftensor)
  : result TurboState :=
  match batches with
  | [] => Ok state
  | Y :: rest => (s <- update_state state Y ;; update_states s rest)%py
  end.

(** The width of the region lies in [[length_min, length_max]]. *)
Definition in_bounds (state : TurboState) : bool :=
  leb (length_min state) (length state) && leb (length state) (length_max state).


End Turbo.

Import Turbo.

(** ** Tensor entries and tensors *)

Module Tensor.

(** An entry of a torch tensor: an exact rational or one of the IEEE
    special values.  Zeros are unsigned. *)
Inductive tnum : Type :=
| TNaN
| TNegInf
| TFin (q : Q)
| TPosInf.

Definition tzero : tnum := TFin 0.
Definition tone : tnum := TFin 1.

(** The entry holding the value of a Python float. *)
Definition of_float (x : float) : tnum :=
  match x with
  | S754_nan => TNaN
  | S754_infinity s => if s then TNegInf else TPosInf
  | S754_zero _ => TFin 0
  | S754_finite s m e =>
      TFin (Qred (inject_Z (if s then Z.neg m else Z.pos m) * Qpower 2 e))
  end.

Definition t_is_nan (x : tnum) : bool :=
  match x with TNaN => true | _ => false end.

(** [torch.isfinite] on one entry. *)
Definition t_is_finite (x : tnum) : bool :=
  match x with TFin _ => true | _ => false end.

Definition tneg (x : tnum) : tnum :=
  match x with
  | TNaN => TNaN
  | TNegInf => TPosInf
  | TPosInf => TNegInf
  | TFin q => TFin (Qred (- q))
  end.

Definition tadd (x y : tnum) : tnum :=
  match x, y with
  | TNaN, _ | _, TNaN => TNaN
  | TPosInf, TNegInf | TNegInf, TPosInf => TNaN
  | TPosInf, _ | _, TPosInf => TPosInf
  | TNegInf, _ | _, TNegInf => TNegInf
  | TFin a, TFin b => TFin (Qred (a + b))
  end.

Definition tsub (x y : tnum) : tnum := tadd x (tneg y).

(** Sign of an entry that is not NaN: the comparison of the entry with
    zero, [Gt] for a positive entry and for plus infinity, [Lt] for a
    negative entry and for minus infinity. *)
Definition tsign (x : tnum) : comparison :=
  match x with
  | TNegInf => Lt
  | TPosInf => Gt
  | TFin q => (q ?= 0)%Q
  | TNaN => Eq
  end.

Definition tinf_of_sign (c : comparison) : tnum :=
  match c with
  | Eq => TNaN
  | Lt => TNegInf
  | Gt => TPosInf
  end.

Definition sign_mul (a b : comparison) : comparison :=
  match a, b with
  | Eq, _ | _, Eq => Eq
  | Gt, c | c, Gt => c
  | Lt, Lt => Gt
  end.

Definition tmul (x y : tnum) : tnum :=
  match x, y with
  | TNaN, _ | _, TNaN => TNaN
  | TFin a, TFin b => TFin (Qred (a * b))
  | _, _ => tinf_of_sign (sign_mul (tsign x) (tsign y))
  end.

Definition tdiv (x y : tnum) : tnum :=
  match x, y with
  | TNaN, _ | _, TNaN => TNaN
  | TFin a, TFin b =>
      if Qeq_bool b 0
      then tinf_of_sign (tsign x)
      else TFin (Qred (a / b))
  | TFin _, _ => TFin 0
  | _, TFin b =>
      if Qeq_bool b 0 then x
      else tinf_of_sign (sign_mul (tsign x) (tsign y))
  | _, _ => TNaN
  end.

(** Comparison of entries; [None] when one side is NaN. *)
Definition tcompare (x y : tnum) : option comparison :=
  match x, y with
  | TNaN, _ | _, TNaN => None
  | TNegInf, TNegInf | TPosInf, TPosInf => Some Eq
  | TNegInf, _ | _, TPosInf => Some Lt
  | _, TNegInf | TPosInf, _ => Some Gt
  | TFin a, TFin b => Some (a ?= b)%Q
  end.

Definition tle (x y : tnum) : bool :=
  match tcompare x y with Some (Lt | Eq) => true | _ => false end.
Definition tlt (x y : tnum) : bool :=
  match tcompare x y with Some Lt => true | _ => false end.
Definition tge (x y : tnum) : bool := tle y x.

(** [torch.clamp(x, lo, hi)] on one entry: NaN stays NaN. *)
Definition clamp (lo hi x : tnum) : tnum :=
  match x with
  | TNaN => TNaN
  | _ =>
      let y := if tlt x lo then lo else x in
      if tlt hi y then hi else y
  end.

(** The entry lies in [[0, 1]]. *)
Definition in_unit (v : tnum) : bool := tle tzero v && tle v tone.

(** A one-dimensional tensor is the list of its entries, a
    two-dimensional tensor the list of its rows. *)
Definition tensor1 : Type := list tnum.
Definition tensor2 : Type := list (list tnum).

(** [X.shape[-1]] of a non-empty two-dimensional tensor. *)
Definition width (X : tensor2) : Z :=
  match X with
  | [] => 0
  | r :: _ => Z.of_nat (List.length r)
  end.

(** Every row has [d] entries. *)
Definition rectangular (d : nat) (X : tensor2) : Prop :=
  Forall (fun r => List.length r = d) X.

(** A list of [n] rows of [d] items each. *)
Definition shaped {A : Type} (n d : nat) (T : list (list A)) : Prop :=
  List.length T = n /\ Forall (fun r => List.length r = d) T.

(** Reductions [min()] and [max()] over all entries: NaN wins; torch
    raises on a tensor without entries. *)
Definition tmin2 (a b : tnum) : tnum :=
  if t_is_nan a then a else if t_is_nan b then b
  else if tlt b a then b else a.
Definition tmax2 (a b : tnum) : tnum :=
  if t_is_nan a then a else if t_is_nan b then b
  else if tlt a b then b else a.

Definition reduce (f : tnum -> tnum -> tnum) (l : list tnum) : result tnum :=
  match l with
  | [] => Raise LibraryError
  | x :: r => Ok (fold_left f r x)
  end.

Definition tensor_min (X : tensor2) : result tnum := reduce tmin2 (List.concat X).
Definition tensor_max (X : tensor2) : result tnum := reduce tmax2 (List.concat X).

(** [torch.all(torch.isfinite(Y))] *)
Definition all_finite (Y : tensor1) : bool := forallb t_is_finite Y.

(** [argmax()]: index of the first largest entry, NaN counting as
    largest; torch raises on an empty tensor. *)
Definition better (x best : tnum) : bool :=
  (t_is_nan x && negb (t_is_nan best)) || tlt best x.

Fixpoint argmax_from (best : tnum) (bi i : nat) (l : list tnum) : nat :=
  match l with
  | [] => bi
  | x :: r =>
      if better x best then argmax_from x i (S i) r
      else argmax_from best bi (S i) r
  end.

Definition argmax (l : tensor1) : result nat :=
  match l with
  | [] => Raise LibraryError
  | x :: r => Ok (argmax_from x 0%nat 1%nat r)
  end.

(** [X[i]] and [X[i, :]]: torch raises when [i] is out of range. *)
Definition row (X : tensor2) (i : nat) : result tensor1 :=
  match nth_error X i with
  | Some r => Ok r
  | None => Raise LibraryError
  end.

(** Entrywise combination of two tensors of the same length; torch
    raises when the shapes do not agree. *)
Fixpoint zip_with {A B C : Type} (f : A -> B -> C) (a : list A) (b : list B)
  : result (list C) :=
  match a, b with
  | [], [] => Ok []
  | x :: a', y :: b' =>
      (r <- zip_with f a' b' ;; Ok (f x y :: r))%py
  | _, _ => Raise LibraryError
  end.

(** Apply [f] to every row, stopping at the first exception. *)
Fixpoint map_rows {A B : Type} (f : A -> result B) (l : list A)
  : result (list B) :=
  match l with
  | [] => Ok []
  | x :: l' => (y <- f x ;; r <- map_rows f l' ;; Ok (y :: r))%py
  end.

(** [tensor.mean()] and [torch.prod(tensor)] of a one-dimensional
    tensor. *)
Definition tensor_mean (w : tensor1) : tnum :=
  tdiv (fold_left tadd w tzero) (TFin (inject_Z (Z.of_nat (List.length w)))).
Definition tensor_prod (w : tensor1) : tnum := fold_left tmul w tone.

(** [len(w)] for the squeezed lengthscale [w]: a single lengthscale
    squeezes to a zero-dimensional tensor, whose [len] raises. *)
Definition squeezed_len (w : tensor1) : result Z :=
  match w with
  | [_] => Raise LibraryError
  | _ => Ok (Z.of_nat (List.length w))
  end.

(** [lo + (hi - lo) * p], entrywise on one row, on the exact values
    (torch rounds the difference, the product and the sum to the dtype
    of the result). *)
Definition affine_row (lo hi p : tensor1) : result tensor1 :=
  (d <- zip_with tsub hi lo ;;
   s <- zip_with tmul d p ;;
   zip_with tadd lo s)%py.

(** Positions of the rows of a boolean mask without a [True]:
    [torch.where(mask.sum(dim=1) == 0)[0]]. *)
Fixpoint empty_rows_from (i : nat) (mask : list (list bool)) : list nat :=
  match mask with
  | [] => []
  | r :: mask' =>
      if existsb (fun b => b) r then empty_rows_from (S i) mask'
      else i :: empty_rows_from (S i) mask'
  end.

Definition empty_rows (mask : list (list bool)) : list nat :=
  empty_rows_from 0%nat mask.

(** [l[i] = v]; torch raises when [i] is out of range. *)
Fixpoint set_nth {A : Type} (l : list A) (i : nat) (v : A) : result (list A) :=
  match l, i with
  | [], _ => Raise LibraryError
  | _ :: l', O => Ok (v :: l')
  | x :: l', S i' => (r <- set_nth l' i' v ;; Ok (x :: r))%py
  end.

(** [mask[i, j] = 1] *)
Definition set_entry (mask : list (list bool)) (i j : nat)
  : result (list (list bool)) :=
  match nth_error mask i with
  | None => Raise LibraryError
  | Some r => (r' <- set_nth r j true ;; set_nth mask i r')%py
  end.

(** [mask[ind, cols] = 1] for two index tensors of the same length. *)
Fixpoint set_entries (mask : list (list bool)) (ind cols : list nat)
  : result (list (list bool)) :=
  match ind, cols with
  | [], [] => Ok mask
  | i :: ind', j :: cols' =>
      (mask' <- set_entry mask i j ;; set_entries mask' ind' cols')%py
  | _, _ => Raise LibraryError
  end.

(** One row of [X_cand[mask] = pert[mask]]. *)
Fixpoint masked_assign_row (x : tensor1) (m : list bool) (p : tensor1)
  : result tensor1 :=
  match x, m, p with
  | [], [], [] => Ok []
  | xv :: x', b :: m', pv :: p' =>
      (r <- masked_assign_row x' m' p' ;; Ok ((if b then pv else xv) :: r))%py
  | _, _, _ => Raise LibraryError
  end.

(** [X_cand[mask] = pert[mask]] for three tensors of the same shape. *)
Fixpoint masked_assign (X : tensor2) (mask : list (list bool)) (P : tensor2)
  : result tensor2 :=
  match X, mask, P with
  | [], [], [] => Ok []
  | x :: X', m :: mask', p :: P' =>
      (r <- masked_assign_row x m p ;;
       R <- masked_assign X' mask' P' ;;
       Ok (r :: R))%py
  | _, _, _ => Raise LibraryError
  end.

End Tensor.

Import Tensor.

(** ** Strings *)

(** The operator [in] on two strings: [a in b] holds when [a] occurs in
    [b] as a substring. *)
Fixpoint str_in (a b : string) : bool :=
  prefix a b ||
  match b with
  | EmptyString => false
  | String _ b' => str_in a b'
  end.

(** The operator [in] on a string and a tuple of strings: equality with
    one of the items.  This is the test that [acqf in ("ts",)] would
    make. *)
Definition in_tuple (a : string) (items : list string) : bool :=
  existsb (String.eqb a) items.

(** ** The Gaussian-process model and the wrapped libraries *)

(** The state of an [ExactGPModel] object: its training data, the
    hyper-parameters of the constant mean, of the scaled RBF kernel (one
    lengthscale per input dimension) and of the Gaussian likelihood, the
    attribute [training_iter], and the train/eval mode flag of
    [torch.nn.Module]. *)
Record GPModel : Type := mkGPModel {
  train_inputs : tensor2;
  train_targets : tensor1;
  mean_constant : tnum;
  lengthscale : tensor1;
  outputscale : tnum;
  noise : tnum;
  training_iter : Z;
  training : bool
}.

(** The hyper-parameters that the (disabled) training loop would
    optimise. *)
Definition hyperparameters (m : GPModel) : tnum * tensor1 * tnum * tnum :=
  (mean_constant m, lengthscale m, outputscale m, noise m).

(** A model object together with the state, of type [G], of the random
    generator. *)
Record world_of (G : Type) : Type := mkWorld {
  gp : GPModel;
  rng : G
}.

Arguments mkWorld {G} gp rng.
Arguments gp {G} w.
Arguments rng {G} w.

(** What the notebook takes from torch, gpytorch and botorch without
    defining it: the state of the global random generator, the
    generators that draw from it, the posterior of the model, the power
    function and the initial hyper-parameter values.  A generator maps
    the generator state to a value and the next state; the value is
    [None] when the library raises an exception of its own. *)
Class TorchBackend : Type := {
  rng_state : Type;
  (** [SobolEngine(dim, scramble=True).draw(n)] *)
  sobol_draw : Z -> Z -> rng_state -> option tensor2 * rng_state;
  (** [torch.rand(n, dim)] *)
  torch_rand : Z -> Z -> rng_state -> option tensor2 * rng_state;
  (** [torch.randint(low, high, size=(k,))] *)
  torch_randint : Z -> Z -> Z -> rng_state -> option (list nat) * rng_state;
  (** [model(X_cand).sample()] *)
  posterior_sample :
    GPModel -> tensor2 -> rng_state -> option tensor1 * rng_state;
  (** [w.pow(e)] on one entry *)
  torch_pow : tnum -> float -> tnum;
  init_mean : tnum;
  init_lengthscale : tnum;
  init_outputscale : tnum;
  init_noise : tnum
}.

Section Notebook.

Context {backend : TorchBackend}.

(** *** Calls that read and change the model object and the generator *)

(** The mutable objects a call of [generate_batch] can reach: the model
    it is handed (by reference) and the global random generator. *)
Definition world : Type := world_of rng_state.

Definition M (A : Type) : Type := world -> result A * world.

Definition ret {A : Type} (a : A) : M A := fun w => (Ok a, w).

Definition raise {A : Type} (e : exn) : M A := fun w => (Raise e, w).

Definition bindM {A B : Type} (c : M A) (k : A -> M B) : M B :=
  fun w =>
    match c w with
    | (Ok a, w') => k a w'
    | (Raise e, w') => (Raise e, w')
    end.

Declare Scope torch_scope.
Delimit Scope torch_scope with torch.
Notation "x <- c ;; k" := (bindM c (fun x => k))
  (at level 61, c at next level, right associativity) : torch_scope.
Notation "c ;;; k" := (bindM c (fun _ => k))
  (at level 61, right associativity) : torch_scope.

Definition lift {A : Type} (r : result A) : M A := fun w => (r, w).

(** [assert b] *)
Definition assert_ (b : bool) : M unit :=
  if b then ret tt else raise AssertionError.

(** The outcome of a library call. *)
Definition of_library {A : Type} (o : option A) : result A :=
  match o with
  | Some a => Ok a
  | None => Raise LibraryError
  end.

(** A draw from the global generator. *)
Definition draw {A : Type} (f : rng_state -> option A * rng_state) : M A :=
  fun w => let (r, g) := f (rng w) in (of_library r, mkWorld (gp w) g).

Definition get_model : M GPModel := fun w => (Ok (gp w), w).

Definition set_training (b : bool) (m : GPModel) : GPModel :=
  mkGPModel (train_inputs m) (train_targets m) (mean_constant m)
    (lengthscale m) (outputscale m) (noise m) (training_iter m) b.

(** [model.eval()] *)
Definition model_eval : M unit :=
  fun w => (Ok tt, mkWorld (set_training false (gp w)) (rng w)).

(** [model(X_cand).sample()] on the model object of the world. *)
Definition sample_posterior (X_cand : tensor2) : M tensor1 :=
  fun w =>
    let (r, g) := posterior_sample (gp w) X_cand (rng w) in
    (of_library r, mkWorld (gp w) g).

(** *** [generate_batch] *)

(** The second assertion: [X.min() >= 0.0 and X.max() <= 1.0 and
    torch.all(torch.isfinite(Y))], evaluated left to right with the
    short cut of [and]. *)
Definition domain_check (X : tensor2) (Y : tensor1) : result bool :=
  (lo <- tensor_min X ;;
   if tge lo tzero then
     hi <- tensor_max X ;;
     if tle hi tone then Ok (all_finite Y) else Ok false
   else Ok false)%py.

(** [min(5000, max(2000, 200 * X.shape[-1]))] *)
Definition default_n_candidates (X : tensor2) : Z :=
  Z.min 5000 (Z.max 2000 (200 * width X)).

(** The lengthscale weights: [w / w.mean()], then
    [w / torch.prod(w.pow(1.0 / len(w)))]. *)
Definition normalised_weights (ls : tensor1) : result tensor1 :=
  let w := map (fun v => tdiv v (tensor_mean ls)) ls in
  (k <- squeezed_len w ;;
   e <- div_int one k ;;
   let p := tensor_prod (map (fun v => torch_pow v e) w) in
   Ok (map (fun v => tdiv v p) w))%py.

(** [weights * state.length / 2.0], entry by entry on the exact values
    (torch rounds the product and the quotient to the dtype of
    [weights]). *)
Definition half_widths (weights : tensor1) (state : TurboState) : tensor1 :=
  map (fun v => tdiv (tmul v (of_float (length state))) (of_float two)) weights.

(** [torch.clamp(x_center - weights * state.length / 2.0, 0.0, 1.0)] and
    the same with [+]. *)
Definition tr_lower (x_center weights : tensor1) (state : TurboState)
  : result tensor1 :=
  (d <- zip_with tsub x_center (half_widths weights state) ;;
   Ok (map (clamp tzero tone) d))%py.

Definition tr_upper (x_center weights : tensor1) (state : TurboState)
  : result tensor1 :=
  (d <- zip_with tadd x_center (half_widths weights state) ;;
   Ok (map (clamp tzero tone) d))%py.

(** The lines between the assertions and the branch on [acqf]: the
    centre [x_center = X[Y.argmax(), :]] of the trust region and its
    clamped bounds [tr_lb] and [tr_ub]. *)
Definition trust_region (state : TurboState) (model : GPModel)
    (X : tensor2) (Y : tensor1) : result (tensor1 * tensor1 * tensor1) :=
  (i <- argmax Y ;;
   x_center <- row X i ;;
   weights <- normalised_weights (lengthscale model) ;;
   tr_lb <- tr_lower x_center weights state ;;
   tr_ub <- tr_upper x_center weights state ;;
   Ok (x_center, tr_lb, tr_ub))%py.

(** [min(20.0 / dim, 1.0)] *)
Definition prob_perturb (dim : Z) : result float :=
  (q <- div_int twenty dim ;; Ok (min2 q one))%py.

(** The Thompson-sampling branch.  It returns the local variables
    [posterior_sample] and [X_next].  In the comparison that builds the
    mask, [prob_perturb] is converted to float32, the dtype of the
    tensor [torch.rand] returns. *)
Definition thompson_branch (X : tensor2) (x_center tr_lb tr_ub : tensor1)
    (n_candidates : Z) : M (tensor1 * tensor1) :=
  (let dim := width X in
   pert <- draw (sobol_draw dim n_candidates) ;;
   pert <- lift (map_rows (affine_row tr_lb tr_ub) pert) ;;
   p <- lift (prob_perturb dim) ;;
   u <- draw (torch_rand n_candidates dim) ;;
   let mask := map (map (fun v => tle v (of_float (cast float32 p)))) u in
   let ind := empty_rows mask in
   cols <- draw (torch_randint 0 (dim - 1) (Z.of_nat (List.length ind))) ;;
   mask <- lift (set_entries mask ind cols) ;;
   let X_cand := repeat x_center (Z.to_nat n_candidates) in
   X_cand <- lift (masked_assign X_cand mask pert) ;;
   model_eval ;;;
   sample <- sample_posterior X_cand ;;
   X_next_idx <- lift (argmax sample) ;;
   X_next <- lift (row X_cand X_next_idx) ;;
   ret (sample, X_next))%torch.

(** The body of [generate_batch] up to its [return] statement.  The
    value is the pair of local variables [(posterior_sample, X_next)]
    when the Thompson-sampling branch has bound them, [None] when they
    are unbound. *)
Definition generate_batch_locals (state : TurboState) (X : tensor2)
    (Y : tensor1) (batch_size : Z) (n_candidates : option Z)
    (num_restarts raw_samples : Z) (acqf : string)
  : M (option (tensor1 * tensor1)) :=
  (assert_ (str_in acqf "ts") ;;;
   ok <- lift (domain_check X Y) ;;
   assert_ ok ;;;
   let n_candidates :=
     match n_candidates with
     | None => default_n_candidates X
     | Some n => n
     end in
   model <- get_model ;;
   tr <- lift (trust_region state model X Y) ;;
   let '(x_center, tr_lb, tr_ub) := tr in
   if String.eqb acqf "ts" then
     locals <- thompson_branch X x_center tr_lb tr_ub n_candidates ;;
     ret (Some locals)
   else ret None)%torch.

(** [generate_batch(state, model, X, Y, batch_size, n_candidates,
    num_restarts, raw_samples, acqf)], the model being the model object
    of the world.  [return X_next] raises [UnboundLocalError] when
    [X_next] was never assigned. *)
Definition generate_batch (state : TurboState) (X : tensor2)
    (Y : tensor1) (batch_size : Z) (n_candidates : option Z)
    (num_restarts raw_samples : Z) (acqf : string) : M tensor1 :=
  (locals <- generate_batch_locals state X Y batch_size n_candidates
               num_restarts raw_samples acqf ;;
   match locals with
   | Some (_, X_next) => ret X_next
   | None => raise UnboundLocalError
   end)%torch.

(** *** [ExactGPModel] and [next_query_via_TurBO] *)

(** [ExactGPModel(train_x, train_y, likelihood)] with a fresh
    [GaussianLikelihood]: a constant mean, an RBF kernel with
    [ard_num_dims = train_x.shape[1]] lengthscales inside a scale
    kernel, [training_iter = 2000]; a new module is in training mode. *)
Definition ExactGPModel_init (train_x : tensor2) (train_y : tensor1) : GPModel :=
  mkGPModel train_x train_y init_mean
    (repeat init_lengthscale (Z.to_nat (width train_x)))
    init_outputscale init_noise 2000 true.

(** The model object at the moment [next_query_via_TurBO] calls
    [generate_batch]: constructed, then [model.train()] and
    [likelihood.train()].  The Adam optimizer and the marginal log
    likelihood are built from it but never used, the loop over
    [range(model.training_iter)] being commented out. *)
Definition next_query_model (train_x : tensor2) (train_y : tensor1) : GPModel :=
  set_training true (ExactGPModel_init train_x train_y).

(** [next_query_via_TurBO(train_x, train_y, turbo_state, verbose)].  The
    model is local to the call; the generator state is what remains. *)
Definition next_query_via_TurBO (train_x : tensor2) (train_y : tensor1)
    (turbo_state : TurboState) (verbose : bool) (g : rng_state)
  : result tensor1 * rng_state :=
  let model := next_query_model train_x train_y in
  let (r, w) :=
    generate_batch turbo_state train_x train_y 1 None 10 512 "ts"
      (mkWorld model g) in
  (r, rng w).

(** *** Vocabulary of the properties *)

(** The call did not end with an exception of the notebook's own. *)
Definition foreign {A : Type} (r : result A) : Prop :=
  r <> Raise AssertionError.

Definition foreignM {A : Type} (c : M A) : Prop :=
  forall w, foreign (fst (c w)).

(** The model object after a call is the one before it, or the one
    before it switched to evaluation mode. *)
Definition mode_step (m m' : GPModel) : Prop :=
  m' = m \/ m' = set_training false m.

Definition frames {A : Type} (c : M A) : Prop :=
  forall w, mode_step (gp w) (gp (snd (c w))).

(** Two worlds with the same generator state whose models differ at
    most in the mode flag. *)
Definition alike (w1 w2 : world) : Prop :=
  rng w1 = rng w2 /\
  set_training false (gp w1) = set_training false (gp w2).

(** A call that cannot tell such worlds apart. *)
Definition blind {A : Type} (c : M A) : Prop :=
  forall w1 w2, alike w1 w2 ->
    fst (c w1) = fst (c w2) /\ alike (snd (c w1)) (snd (c w2)).

(** The world of a second run: the model object as the first run left
    it, the generator put back to the state [w] had (the seed is set
    again). *)
Definition rerun (w after : world) : world := mkWorld (gp after) (rng w).

(** Contracts of the libraries.  The Sobol engine draws points of the
    unit cube; the generators return tensors of the requested shape,
    [torch.randint] within its bounds; the posterior of a model in
    evaluation mode yields one value per candidate. *)
Definition sobol_in_unit_cube : Prop :=
  forall d n g t g',
    sobol_draw d n g = (Some t, g') ->
    Forall (Forall (fun v => in_unit v = true)) t.

Definition sobol_shape : Prop :=
  forall d n g, 1 <= d -> 0 <= n ->
    exists t g', sobol_draw d n g = (Some t, g') /\
                 List.length t = Z.to_nat n /\ rectangular (Z.to_nat d) t.

Definition rand_shape : Prop :=
  forall n d g, 0 <= n -> 0 <= d ->
    exists t g', torch_rand n d g = (Some t, g') /\
                 List.length t = Z.to_nat n /\ rectangular (Z.to_nat d) t.

Definition randint_range : Prop :=
  forall lo hi k g, 0 <= lo < hi -> 0 <= k ->
    exists l g', torch_randint lo hi k g = (Some l, g') /\
                 List.length l = Z.to_nat k /\
                 Forall (fun j => lo <= Z.of_nat j < hi) l.

Definition posterior_shape : Prop :=
  forall m X_cand g, training m = false -> X_cand <> [] ->
    exists s g', posterior_sample m X_cand g = (Some s, g') /\
                 List.length s = List.length X_cand.

End Notebook.

(** ** The driver loop *)

Module Driver.

(** [torch.max(t)] over all entries of [t]: NaN wins; torch raises on an
    empty tensor. *)
Definition torch_max2 (a b : float) : float :=
  if is_nan a then a else if is_nan b then b
  else if ltb a b then b else a.

Definition torch_max (t : list float) : result float :=
  match t with
  | [] => Raise LibraryError
  | x :: r => Ok (fold_left torch_max2 r x)
  end.

(** [functions] and [dimensions] *)
Definition functions : list Z := [1; 2; 3; 4; 5; 6; 7; 8].
Definition dimensions : list Z := [2; 2; 3; 4; 4; 5; 6; 8].

(** [a[k]] on a numpy array: a negative index counts from the end. *)
Definition np_index {A : Type} (a : list A) (k : Z) : result A :=
  let n := Z.of_nat (List.length a) in
  let k' := if k <? 0 then k + n else k in
  if k' <? 0 then Raise LibraryError
  else match nth_error a (Z.to_nat k') with
       | Some v => Ok v
       | None => Raise LibraryError
       end.

(** [np.reshape(flat, (-1, d))]: rows of [d] entries; numpy raises when
    the entries do not fill whole rows. *)
Fixpoint reshape_fuel {A : Type} (fuel d : nat) (flat : list A)
  : result (list (list A)) :=
  match flat with
  | [] => Ok []
  | _ :: _ =>
      match fuel with
      | O => Raise LibraryError
      | S fuel' =>
          if (d =? 0)%nat || (List.length flat <? d)%nat
          then Raise LibraryError
          else (r <- reshape_fuel fuel' d (skipn d flat) ;;
                Ok (firstn d flat :: r))%py
      end
  end.

Definition reshape {A : Type} (d : Z) (flat : list A) : result (list (list A)) :=
  if d <? 0 then Raise LibraryError
  else reshape_fuel (List.length flat) (Z.to_nat d) flat.

(** The data the loop reads for one function: the two [.npy] pairs and
    the columns [f<i>] (one parsed point per row of the CSV file) and
    [f<i>_output] of [574_data.csv]. *)
Record function_data : Type := mkFunctionData {
  initial_inputs : list (list float);
  initial_outputs : list float;
  initial_inputs_2 : list (list float);
  initial_outputs_2 : list float;
  csv_points : list (list float);
  csv_outputs : list float
}.

(** The loop body up to the call of [next_query_via_TurBO]: the state
    created for the run and the concatenated training data. *)
Definition prepare (i : Z) (data : function_data)
  : result (TurboState * list (list float) * list float) :=
  (let train_x := map (map to_float32) (initial_inputs data) in
   let train_y := map to_float32 (initial_outputs data) in
   let train_x_2 := map (map to_float32) (initial_inputs_2 data) in
   let train_y_2 := map to_float32 (initial_outputs_2 data) in
   let x_new := List.concat (csv_points data) in
   d <- np_index dimensions (i - 1) ;;
   x_new <- reshape d x_new ;;
   let y_new := csv_outputs data in
   d <- np_index dimensions (i - 1) ;;
   best <- torch_max train_y ;;
   state <- TurboState_default d (to_float32 best) ;;
   let train_x := train_x ++ train_x_2 ++ x_new in
   let train_y := train_y ++ train_y_2 ++ y_new in
   Ok (state, train_x, train_y))%py.

(** The state [TurboState(dim = dimensions[i-1], best_value =
    torch.max(train_y).float())] of the run for function [i]. *)
Definition run_state (i : Z) (data : function_data) : result TurboState :=
  (p <- prepare i data ;; Ok (fst (fst p)))%py.

(** The output values the loop has loaded for function [i] when it
    calls [next_query_via_TurBO]. *)
Definition loaded_outputs (data : function_data) : list float :=
  map to_float32 (initial_outputs data)
  ++ map to_float32 (initial_outputs_2 data)
  ++ csv_outputs data.

(** One iteration of [for i in functions]: the state of the run and the
    query that is printed. *)
Definition iteration {backend : TorchBackend} (i : Z) (data : function_data)
    (g : rng_state) : result (TurboState * tensor1) * rng_state :=
  match prepare i data with
  | Raise e => (Raise e, g)
  | Ok (state, train_x, train_y) =>
      let (r, g') :=
        next_query_via_TurBO (map (map of_float) train_x)
          (map of_float train_y) state true g in
      ((q <- r ;; Ok (state, q))%py, g')
  end.

End Driver.

(** ** A backend to run the notebook on *)

(** A small deterministic backend: a linear congruential generator in
    place of the torch generator, uniform draws with three decimals, a
    power function that is only right on the base 1 (the value of every
    weight of a model whose lengthscales are all equal). *)
Module ToyBackend.

Definition lcg (g : Z) : Z := (1103515245 * g + 12345) mod 2147483648.

Definition uniform (g : Z) : tnum := TFin (Qred (Qmake (g mod 1000) 1000)).

Fixpoint draws (k : nat) (g : Z) : list tnum * Z :=
  match k with
  | O => ([], g)
  | S k' =>
      let g1 := lcg g in
      let (r, g2) := draws k' g1 in
      (uniform g1 :: r, g2)
  end.

Fixpoint draw_rows (n k : nat) (g : Z) : list (list tnum) * Z :=
  match n with
  | O => ([], g)
  | S n' =>
      let (r, g1) := draws k g in
      let (R, g2) := draw_rows n' k g1 in
      (r :: R, g2)
  end.

Fixpoint draw_nats (k : nat) (hi : Z) (g : Z) : list nat * Z :=
  match k with
  | O => ([], g)
  | S k' =>
      let g1 := lcg g in
      let (r, g2) := draw_nats k' hi g1 in
      (Z.to_nat (g1 mod hi) :: r, g2)
  end.

Definition matrix (n d : Z) (g : Z) : option tensor2 * Z :=
  if (d <? 0) || (n <? 0) then (None, g)
  else let (t, g') := draw_rows (Z.to_nat n) (Z.to_nat d) g in (Some t, g').

Definition sobol (d n : Z) (g : Z) : option tensor2 * Z :=
  if d <? 1 then (None, g) else matrix n d g.

Definition indices (lo hi k : Z) (g : Z) : option (list nat) * Z :=
  if (hi <=? lo) || (k <? 0) then (None, g)
  else let (t, g') := draw_nats (Z.to_nat k) (hi - lo) g in
       (Some (map (fun j => Z.to_nat (lo + Z.of_nat j)) t), g').

Definition sample (m : GPModel) (X_cand : tensor2) (g : Z)
  : option tensor1 * Z :=
  if training m then (None, g)
  else let (t, g') := draws (List.length X_cand) g in (Some t, g').

Definition pow (v : tnum) (e : float) : tnum :=
  match v with
  | TFin q => if Qeq_bool q 1 then TFin 1 else TNaN
  | _ => TNaN
  end.

#[export] Instance backend : TorchBackend := {|
  rng_state := Z;
  sobol_draw := sobol;
  torch_rand := matrix;
  torch_randint := indices;
  posterior_sample := sample;
  torch_pow := pow;
  init_mean := TFin 0;
  init_lengthscale := TFin (Qmake 6931 10000);
  init_outputscale := TFin (Qmake 6931 10000);
  init_noise := TFin (Qmake 1 10000)
|}.

End ToyBackend.

(** ** Concrete inputs *)

Module Examples.

Definition half : float := Eval vm_compute in ratio 1 2.

(** [TurboState(dim=6, best_value=1.0)] after 41 batches without
    improvement: the width has been halved six times, to 0.0125, and
    five failures have been counted since. *)
Definition shrunk_state : TurboState :=
  mkTurboState 6 1 (S754_finite false 7205759403792794 (-59))
    lit_0_5_pow_7 lit_1_6 5 6 0 3 one false.

Definition three : float := Eval vm_compute in of_Z 3.

(** Batches of observations: [torch.tensor([0.5], dtype=torch.float64)]
    and [torch.tensor([0.5, 2.0], dtype=torch.float64)]. *)
Definition low_batch : ftensor := mkTensor float64 [half].

(** [TurboState(dim=2, best_value=1.0)] *)
Definition unit_state : TurboState :=
  mkTurboState 2 1 lit_0_8 lit_0_5_pow_7 lit_1_6 0 4 0 3 one false.

(** The float32 nearest to 1.001. *)
Definition near_value : float := Eval vm_compute in to_float32 (ratio 1001 1000).

(** [torch.tensor([1.001])], a float32 tensor, and
    [torch.tensor([1.001]).double()], the float64 tensor with the same
    entry. *)
Definition near_batch : ftensor := mkTensor float32 [near_value].
Definition near_batch_double : ftensor := mkTensor float64 [near_value].

(** Observations of one function: a single point per source, with
    outputs 1.0, 2.0 and 3.0. *)
Definition three_sources : Driver.function_data :=
  Driver.mkFunctionData [[half; half]] [one] [[half; half]] [two]
    [[half; half]] [three].

(** Two observed points of a two-dimensional function. *)
Definition X2 : tensor2 :=
  [[TFin (Qmake 1 10); TFin (Qmake 2 10)]; [TFin (Qmake 9 10); TFin (Qmake 1 2)]].
Definition Y2 : tensor1 := [TFin 1; TFin 3].

(** The same with a coordinate outside the unit square. *)
Definition X2_outside : tensor2 :=
  [[TFin (Qmake 3 2); TFin (Qmake 2 10)]; [TFin (Qmake 9 10); TFin (Qmake 1 2)]].

(** [TurboState(dim=2, best_value=3.0)] *)
Definition state2 : TurboState :=
  mkTurboState 2 1 lit_0_8 lit_0_5_pow_7 lit_1_6 0 4 0 3 three false.

(** The world at the call of [generate_batch] inside
    [next_query_via_TurBO(X2, Y2, state2)], generator state 7. *)
Definition world2 : @world ToyBackend.backend :=
  @mkWorld Z (@next_query_model ToyBackend.backend X2 Y2) 7.

(** The centre and the clamped bounds of the trust region of that call:
    the centre is the best observed point (0.9, 0.5), the bounds are
    the centre minus and plus half the width 0.8 (the double nearest to
    it), clamped to the unit square. *)
Definition region2 : tensor1 * tensor1 * tensor1 :=
  Eval vm_compute in
    match @trust_region ToyBackend.backend state2 (gp world2) X2 Y2 with
    | Ok tr => tr
    | Raise _ => ([], [], [])
    end.

(** The point returned by [generate_batch(state2, model, X2, Y2,
    n_candidates=4)] in [world2], and the world after the call. *)
Definition next2 : tensor1 :=
  Eval vm_compute in
    match fst (@generate_batch ToyBackend.backend state2 X2 Y2 1 (Some 4)
                 10 512 "ts" world2) with
    | Ok x => x
    | Raise _ => []
    end.

Definition after2 : @world ToyBackend.backend :=
  Eval vm_compute in
    snd (@generate_batch ToyBackend.backend state2 X2 Y2 1 (Some 4)
           10 512 "ts" world2).

End Examples.

(** * Properties *)

(** ** Order and arithmetic facts on binary64 values *)

Module PyFloatFacts.

Lemma compare_cont_eq m n : Pos.compare_cont Eq m n = (m ?= n)%positive.
Proof. reflexivity. Qed.

Ltac order_cases :=
  repeat match goal with
  | |- context [Z.compare ?a ?b] => destruct (Z.compare_spec a b)
  | H : context [Z.compare ?a ?b] |- _ => destruct (Z.compare_spec a b)
  | |- context [Pos.compare ?a ?b] => destruct (Pos.compare_spec a b)
  | H : context [Pos.compare ?a ?b] |- _ => destruct (Pos.compare_spec a b)
  end.

Ltac float_order :=
  unfold leb, ltb, gtb, SFleb, SFltb, SFcompare in *;
  rewrite ?compare_cont_eq in *;
  simpl in *; try congruence; try reflexivity;
  order_cases; simpl in *; subst; try congruence; try reflexivity; try lia.



Lemma leb_refl x : is_nan x = false -> leb x x = true.
Proof. destruct x as [[]|[]| |[] m e]; intros H; float_order. Qed.


Lemma leb_total x y : is_nan x = false -> is_nan y = false -> ltb y x = false -> leb x y = true.
Proof. destruct x as [[]|[]| |[] m e], y as [[]|[]| |[] m' e']; intros H1 H2 H; float_order. Qed.

Lemma leb_not_nan x y : leb x y = true -> is_nan x = false /\ is_nan y = false.
Proof. destruct x as [[]|[]| |[] m e], y as [[]|[]| |[] m' e']; intros H; split; float_order. Qed.

Lemma leb_trans x y z : leb x y = true -> leb y z = true -> leb x z = true.
Proof.
  destruct x as [[]|[]| |[] m e], y as [[]|[]| |[] m' e'], z as [[]|[]| |[] m'' e''];
  intros H1 H2; float_order.
Qed.

Lemma ltb_leb_false x y : ltb x y = true -> leb y x = false.
Proof. destruct x as [[]|[]| |[] m e], y as [[]|[]| |[] m' e']; intros H; float_order. Qed.


(* no shift needed: value already representable *)
Lemma shr_fexp_fits M E :
  fexp prec emax (Z.pos (digits2_pos M) + E) <= E ->
  shr_fexp prec emax (Z.pos M) E loc_Exact = (exact_record (Z.pos M), E).
Proof.
  intros H. unfold shr_fexp, shr, shr_record_of_loc. simpl Zdigits2.
  destruct (fexp prec emax (Z.pos (digits2_pos M) + E) - E) eqn:K; try reflexivity. lia.
Qed.

Lemma binary_round_aux_fits s M E :
  fexp prec emax (Z.pos (digits2_pos M) + E) <= E ->
  binary_round_aux prec emax s (Z.pos M) E loc_Exact =
  if E <=? emax - prec then S754_finite s M E else S754_infinity s.
Proof.
  intros H. unfold binary_round_aux.
  rewrite (shr_fexp_fits M E H). simpl.
  rewrite (shr_fexp_fits M E H). reflexivity.
Qed.

(* shift by k exact *)
Lemma binary_round_aux_shift s M E (k : positive) M1 :
  fexp prec emax (Z.pos (digits2_pos M) + E) - E = Z.pos k ->
  iter_pos shr_1 k (exact_record (Z.pos M)) = exact_record (Z.pos M1) ->
  fexp prec emax (Z.pos (digits2_pos M1) + (E + Z.pos k)) <= E + Z.pos k ->
  binary_round_aux prec emax s (Z.pos M) E loc_Exact =
  if E + Z.pos k <=? emax - prec then S754_finite s M1 (E + Z.pos k) else S754_infinity s.
Proof.
  intros K I H. unfold binary_round_aux.
  unfold shr_fexp at 1. simpl Zdigits2. rewrite K. unfold shr, shr_record_of_loc.
  fold (exact_record (Z.pos M)). rewrite I. simpl.
  rewrite (shr_fexp_fits M1 _ H). reflexivity.
Qed.

Lemma digits2_double52 m :
  digits2_pos (4503599627370496 * m) = (digits2_pos m + 52)%positive.
Proof. cbn. lia. Qed.

Lemma valid_finite_cases s m e :
  valid (S754_finite s m e) = true ->
  e <= 971 /\ -1074 <= e /\
  ((digits2_pos m = 53%positive) \/ (e = -1074 /\ (digits2_pos m < 53)%positive)).
Proof.
  unfold valid, valid_binary, bounded, canonical_mantissa, fexp, SpecFloat.emin, prec, emax.
  intros H. apply andb_prop in H. destruct H as [H1 H2].
  apply Z.eqb_eq in H1. apply Z.leb_le in H2. lia.
Qed.

Lemma leb_finite_same_exp m m' e :
  (m <= m')%positive ->
  leb (S754_finite false m e) (S754_finite false m' e) = true.
Proof.
  intros H. unfold leb, SFleb, SFcompare. rewrite Z.compare_refl.
  change (Pos.compare_cont Eq m m') with (m ?= m')%positive.
  destruct (Pos.compare_spec m m'); try reflexivity. lia.
Qed.

Lemma leb_finite_lower_exp m m' e e' :
  e < e' ->
  leb (S754_finite false m e) (S754_finite false m' e') = true.
Proof.
  intros H. unfold leb, SFleb, SFcompare.
  destruct (Z.compare_spec e e'); try reflexivity; lia.
Qed.


Lemma div_eucl_div_mod a b : Z.div_eucl a b = (a / b, a mod b).
Proof. unfold Z.div, Z.modulo. destruct (Z.div_eucl a b). reflexivity. Qed.

Lemma div_eucl_unique a b q r :
  0 <= r < b -> a = b * q + r -> Z.div_eucl a b = (q, r).
Proof.
  intros Hr Ha. rewrite div_eucl_div_mod.
  rewrite (Z.div_unique a b q r), (Z.mod_unique a b q r); auto.
Qed.

Lemma fexp_unfold z : fexp prec emax z = Z.max (z - 53) (-1074).
Proof. reflexivity. Qed.

Lemma div_core_two_normal m e :
  digits2_pos m = 53%positive -> -1072 <= e ->
  SFdiv_core_binary prec emax (Z.pos m) e (Z.pos 4503599627370496) (-51)
  = (Z.pos m~0, e - 2, loc_Exact).
Proof.
  intros D He. unfold SFdiv_core_binary. simpl Zdigits2. rewrite D.
  cbv zeta. rewrite fexp_unfold.
  replace (Z.min _ _) with (e - 2) by lia.
  replace (e - -51 - (e - 2)) with 53 by lia.
  change (Z.shiftl (Z.pos m) 53) with (4503599627370496 * Z.pos m~0).
  rewrite (div_eucl_unique _ _ (Z.pos m~0) 0); try lia. reflexivity.
Qed.

Lemma div_core_two_low m :
  digits2_pos m = 53%positive ->
  SFdiv_core_binary prec emax (Z.pos m) (-1073) (Z.pos 4503599627370496) (-51)
  = (Z.pos m, -1074, loc_Exact).
Proof.
  intros D. unfold SFdiv_core_binary. simpl Zdigits2. rewrite D.
  cbv zeta. rewrite fexp_unfold.
  replace (Z.min _ _) with (-1074) by lia.
  change (-1073 - -51 - -1074) with 52.
  change (Z.shiftl (Z.pos m) 52) with (4503599627370496 * Z.pos m).
  rewrite (div_eucl_unique _ _ (Z.pos m) 0); try lia. reflexivity.
Qed.

Lemma div_core_two_tiny m :
  (digits2_pos m <= 53)%positive ->
  SFdiv_core_binary prec emax (Z.pos m) (-1074) (Z.pos 4503599627370496) (-51)
  = (Z.pos m / 2, -1074,
     if Z.even (Z.pos m) then loc_Exact else loc_Inexact Eq).
Proof.
  intros D. unfold SFdiv_core_binary. simpl Zdigits2.
  cbv zeta. rewrite fexp_unfold.
  replace (Z.min _ _) with (-1074) by lia.
  change (-1074 - -51 - -1074) with 51.
  change (Z.shiftl (Z.pos m) 51) with (2251799813685248 * Z.pos m).
  destruct (Z.even (Z.pos m)) eqn:E.
  - rewrite (div_eucl_unique _ _ (Z.pos m / 2) 0); try lia; [reflexivity|].
    apply Z.even_spec in E. destruct E as [k Hk]. rewrite Hk.
    rewrite (Z.mul_comm 2 k), Z.div_mul by lia. lia.
  - assert (O : Z.odd (Z.pos m) = true) by (rewrite <- Z.negb_even, E; reflexivity).
    apply Z.odd_spec in O. destruct O as [k Hk].
    assert (Hq : Z.pos m / 2 = k).
    { symmetry. apply (Z.div_unique _ _ k 1); lia. }
    rewrite Hq.
    rewrite (div_eucl_unique _ _ k 2251799813685248); try lia. reflexivity.
Qed.

Lemma digits2_bounds p :
  2 ^ (Z.pos (digits2_pos p) - 1) <= Z.pos p < 2 ^ Z.pos (digits2_pos p).
Proof.
  induction p as [p IH|p IH|]; simpl digits2_pos.
  - rewrite Pos2Z.inj_succ.
    replace (Z.succ (Z.pos (digits2_pos p)) - 1) with (Z.succ (Z.pos (digits2_pos p) - 1)) by lia.
    rewrite !Z.pow_succ_r by lia. lia.
  - rewrite Pos2Z.inj_succ.
    replace (Z.succ (Z.pos (digits2_pos p)) - 1) with (Z.succ (Z.pos (digits2_pos p) - 1)) by lia.
    rewrite !Z.pow_succ_r by lia. lia.
  - simpl. lia.
Qed.

Lemma digits2_le p n :
  0 <= n -> Z.pos p < 2 ^ n -> Z.pos (digits2_pos p) <= n.
Proof.
  intros Hn Hp. destruct (Z_le_gt_dec (Z.pos (digits2_pos p)) n) as [|G]; [assumption|].
  pose proof (digits2_bounds p) as [B _].
  assert (2 ^ n <= 2 ^ (Z.pos (digits2_pos p) - 1)) by (apply Z.pow_le_mono_r; lia).
  lia.
Qed.

Lemma digits2_lt_pow p n :
  0 <= n -> Z.pos (digits2_pos p) <= n -> Z.pos p < 2 ^ n.
Proof.
  intros Hn D. pose proof (digits2_bounds p) as [_ B].
  assert (2 ^ Z.pos (digits2_pos p) <= 2 ^ n) by (apply Z.pow_le_mono_r; lia).
  lia.
Qed.

(* rounding a tie at the smallest exponent *)
Lemma binary_round_aux_tie M :
  Z.pos M < 2 ^ 52 ->
  binary_round_aux prec emax false (Z.pos M) (-1074) (loc_Inexact Eq)
  = S754_finite false (if Z.even (Z.pos M) then M else Pos.succ M) (-1074).
Proof.
  intros B.
  assert (D : Z.pos (digits2_pos M) <= 52) by (apply digits2_le; lia).
  unfold binary_round_aux. unfold shr_fexp at 1. simpl Zdigits2.
  rewrite fexp_unfold.
  replace (Z.max _ _ - -1074) with 0 by lia.
  unfold shr, shr_record_of_loc, loc_of_shr_record, round_nearest_even, shr_m.
  destruct (Z.even (Z.pos M)).
  - rewrite shr_fexp_fits by (rewrite fexp_unfold; lia). reflexivity.
  - change (Z.pos M + 1) with (Z.pos (M + 1)). rewrite Pos.add_1_r.
    assert (D' : Z.pos (digits2_pos (Pos.succ M)) <= 53)
      by (apply digits2_le; lia).
    rewrite shr_fexp_fits by (rewrite fexp_unfold; lia). reflexivity.
Qed.

Lemma div_two_nonneg_shrinks x :
  valid x = true -> leb zero x = true -> leb (div x two) x = true.
Proof.
  intros V P. destruct x as [s|[]| |[] m e]; try discriminate; try reflexivity.
  destruct (valid_finite_cases _ _ _ V) as (Hmax & Hmin & C).
  unfold div, two, SFdiv. simpl xorb.
  destruct (Z_le_gt_dec (-1072) e) as [L|G].
  - assert (D : digits2_pos m = 53%positive) by lia.
    rewrite (div_core_two_normal m e D L).
    rewrite (binary_round_aux_shift false _ _ 1 m).
    + destruct (_ <=? _) eqn:K; [apply leb_finite_lower_exp; lia|].
      apply Z.leb_gt in K. unfold emax, prec in K. lia.
    + simpl digits2_pos. rewrite D, fexp_unfold. lia.
    + reflexivity.
    + rewrite D, fexp_unfold. lia.
  - assert (E : e = -1073 \/ e = -1074) by lia. destruct E as [E|E]; subst e.
    + assert (D : digits2_pos m = 53%positive) by lia.
      rewrite (div_core_two_low m D).
      rewrite binary_round_aux_fits by (rewrite D, fexp_unfold; lia).
      simpl. apply leb_finite_lower_exp. lia.
    + assert (D : (digits2_pos m <= 53)%positive) by lia.
      rewrite (div_core_two_tiny m D).
      assert (B : Z.pos m < 2 ^ 53) by (apply digits2_lt_pow; lia).
      destruct m as [p|p|].
      * replace (Z.pos p~1 / 2) with (Z.pos p)
          by (apply (Z.div_unique _ _ (Z.pos p) 1); lia).
        simpl Z.even. cbv iota.
        rewrite binary_round_aux_tie by lia.
        apply leb_finite_same_exp. destruct (Z.even (Z.pos p)); lia.
      * replace (Z.pos p~0 / 2) with (Z.pos p)
          by (apply (Z.div_unique _ _ (Z.pos p) 0); lia).
        simpl Z.even. cbv iota.
        assert (Z.pos (digits2_pos p) <= 52) by (apply digits2_le; lia).
        rewrite binary_round_aux_fits by (rewrite fexp_unfold; lia).
        simpl. apply leb_finite_same_exp. lia.
      * reflexivity.
Qed.

Lemma mul_two_nonneg_grows x :
  valid x = true -> leb zero x = true -> leb x (mul two x) = true.
Proof.
  intros V P. destruct x as [s|[]| |[] m e]; try discriminate; try reflexivity.
  destruct (valid_finite_cases _ _ _ V) as (Hmax & Hmin & [D | [He D]]).
  - unfold mul, two, SFmul. simpl xorb.
    rewrite (binary_round_aux_shift false _ _ 52 m).
    + unfold leb, SFleb, SFcompare. destruct (_ <=? _); [|reflexivity].
      replace (-51 + e + 52) with (e + 1) by lia.
      destruct (Z.compare_spec e (e + 1)); try lia; reflexivity.
    + rewrite digits2_double52. unfold fexp, SpecFloat.emin, prec, emax. lia.
    + reflexivity.
    + unfold fexp, SpecFloat.emin, prec, emax. lia.
  - subst e. unfold mul, two, SFmul. simpl xorb.
    rewrite (binary_round_aux_shift false _ _ 51 (m~0)).
    + simpl. apply leb_finite_same_exp. lia.
    + rewrite digits2_double52. unfold fexp, SpecFloat.emin, prec, emax. lia.
    + reflexivity.
    + simpl digits2_pos. unfold fexp, SpecFloat.emin, prec, emax. lia.
Qed.



(** *** The builtins [max] and [min] *)






Lemma min2_cap a b :
  is_nan a = false -> is_nan b = false ->
  leb (min2 a b) b = true /\ (min2 a b = a \/ min2 a b = b).
Proof.
  intros Na Nb. unfold min2. destruct (ltb b a) eqn:E.
  - split; [apply leb_refl; exact Nb|auto].
  - split; [apply leb_total; assumption|auto].
Qed.


Lemma max_list_nonempty Y : Y <> [] -> exists y, max_list Y = Ok y.
Proof. destruct Y as [|x r]; [congruence|]. intros _. eexists. reflexivity. Qed.


End PyFloatFacts.

Import PyFloatFacts.

(** ** The trust-region update *)

Section UpdateState.

Variable state : TurboState.
Variable Y_next : ftensor.
Variable y : float.
Hypothesis Hmax : max_list (entries Y_next) = Ok y.

(** On a non-empty batch [update_state] is its four statements in
    sequence. *)
Lemma update_state_steps :
  update_state state Y_next
  = Ok (flag_restart
          (record_best
             (resize_region (count_outcome state (tensor_dtype Y_next) y)) y)).
Proof. unfold update_state. rewrite Hmax. reflexivity. Qed.

End UpdateState.

(** *** What each statement leaves alone *)

Lemma flag_restart_spec s :
  restart_triggered (flag_restart s)
  = restart_triggered s || ltb (length s) (length_min s).
Proof.
  unfold flag_restart. destruct (ltb (length s) (length_min s)); simpl.
  - rewrite orb_true_r. reflexivity.
  - rewrite orb_false_r. reflexivity.
Qed.

Lemma flag_restart_length s : length (flag_restart s) = length s.
Proof. unfold flag_restart. destruct (ltb _ _); reflexivity. Qed.

Lemma flag_restart_length_min s : length_min (flag_restart s) = length_min s.
Proof. unfold flag_restart. destruct (ltb _ _); reflexivity. Qed.

Lemma flag_restart_length_max s : length_max (flag_restart s) = length_max s.
Proof. unfold flag_restart. destruct (ltb _ _); reflexivity. Qed.


Ltac resize_cases :=
  unfold resize_region; destruct (_ =? _); [|destruct (_ =? _)]; reflexivity.

Lemma resize_region_restart s :
  restart_triggered (resize_region s) = restart_triggered s.
Proof. resize_cases. Qed.


Lemma resize_region_length_min s : length_min (resize_region s) = length_min s.
Proof. resize_cases. Qed.

Lemma resize_region_length_max s : length_max (resize_region s) = length_max s.
Proof. resize_cases. Qed.

Lemma resize_region_length s :
  length (resize_region s) = length s \/
  length (resize_region s) = min2 (mul two (length s)) (length_max s) \/
  (length (resize_region s) = div (length s) two /\
   failure_counter s = failure_tolerance s).
Proof.
  unfold resize_region. destruct (_ =? _); [simpl; auto|].
  destruct (_ =? _) eqn:E; simpl; auto.
  apply Z.eqb_eq in E. auto.
Qed.

Lemma count_outcome_frame s d v :
  restart_triggered (count_outcome s d v) = restart_triggered s /\
  best_value (count_outcome s d v) = best_value s /\
  length (count_outcome s d v) = length s /\
  length_min (count_outcome s d v) = length_min s /\
  length_max (count_outcome s d v) = length_max s /\
  failure_tolerance (count_outcome s d v) = failure_tolerance s /\
  success_tolerance (count_outcome s d v) = success_tolerance s.
Proof. unfold count_outcome. destruct (improved s d v); simpl; repeat split. Qed.


(** *** The streak counters *)



(** The float32 nearest to 1.001 is not above the threshold of
    [best_value = 1.0] once the threshold is converted to float32, so a
    float32 batch holding it counts as a failure; the same value in a
    float64 batch is above the threshold and counts as a success. *)
Lemma update_state_compares_in_dtype :
  Examples.near_batch = torch_tensor float32 [ratio 1001 1000] /\
  entries Examples.near_batch_double = entries Examples.near_batch /\
  (exists state',
     update_state Examples.unit_state Examples.near_batch = Ok state' /\
     success_counter state' = 0 /\ failure_counter state' = 1) /\
  (exists state',
     update_state Examples.unit_state Examples.near_batch_double = Ok state' /\
     success_counter state' = 1 /\ failure_counter state' = 0).
Proof.
  split; [reflexivity|]. split; [reflexivity|].
  split; eexists; (split; [reflexivity|]); split; reflexivity.
Qed.

(** *** The best value *)





(** *** The restart flag *)

Lemma update_state_restart_eq state Y_next state' :
  update_state state Y_next = Ok state' ->
  restart_triggered state'
  = restart_triggered state || ltb (length state') (length_min state').
Proof.
  unfold update_state.
  destruct (max_list (entries Y_next)) as [v|e]; simpl; [|discriminate].
  intros H. injection H as <-.
  rewrite flag_restart_spec, flag_restart_length, flag_restart_length_min.
  simpl. rewrite resize_region_restart.
  destruct (count_outcome_frame state (tensor_dtype Y_next) v) as (-> & _).
  reflexivity.
Qed.

(** C6.  [update_state] assigns [True] to [restart_triggered] exactly
    when the width it leaves is below [length_min]: the flag of the
    returned state is the old flag or that comparison, so a flag that
    was clear is set if and only if the width is below the minimum; and
    once the flag is set, it is still set after any sequence of further
    calls. *)
Theorem update_state_restart_flag (state : TurboState) (Y_next : ftensor) :
  entries Y_next <> [] ->
  exists state',
    update_state state Y_next = Ok state' /\
    restart_triggered state'
    = restart_triggered state || ltb (length state') (length_min state') /\
    (restart_triggered state = false ->
       (restart_triggered state' = true <->
        ltb (length state') (length_min state') = true)) /\
    (forall batches final,
       restart_triggered state = true ->
       update_states state batches = Ok final ->
       restart_triggered final = true).
Proof.
  intros NE. destruct (max_list_nonempty _ NE) as [v Hv].
  eexists. split; [apply update_state_steps; exact Hv|].
  pose proof (update_state_restart_eq state Y_next _
                (update_state_steps state Y_next v Hv)) as E.
  split; [exact E|]. split.
  - intros F. rewrite E, F. simpl. tauto.
  - clear. intros batches. revert state.
    induction batches as [|Y rest IH]; intros state final T H; simpl in H.
    + injection H as <-. exact T.
    + destruct (update_state state Y) as [s|e] eqn:U; simpl in H; [|discriminate].
      apply (IH s final); [|exact H].
      rewrite (update_state_restart_eq _ _ _ U), T. reflexivity.
Qed.

Lemma update_state_restart_flag_witness :
  exists state',
    update_state Examples.shrunk_state Examples.low_batch = Ok state' /\
    restart_triggered state' = true.
Proof.
  destruct (update_state_restart_flag Examples.shrunk_state Examples.low_batch)
    as (state' & U & E & _); [discriminate|].
  exists state'. split; [exact U|].
  rewrite E. injection U as <-. reflexivity.
Defined.

(** *** The width of the region *)

(** The state [shrunk_state] is reached from the state of a fresh run. *)
Lemma shrunk_state_reached :
  (s <- TurboState_default 6 one ;;
   update_states s (repeat Examples.low_batch 41))%py = Ok Examples.shrunk_state.
Proof. vm_compute. reflexivity. Qed.

(** C1, as stated, fails: [shrunk_state] has its width 0.0125 inside
    [[length_min, length_max]] = [[0.0078125, 1.6]]; one more batch
    without improvement is the sixth failure in a row, the width is
    halved to 0.00625, and the returned state has its width below
    [length_min]. *)
Lemma update_state_leaves_bounds :
  in_bounds Examples.shrunk_state = true /\
  entries Examples.low_batch <> [] /\
  exists state',
    update_state Examples.shrunk_state Examples.low_batch = Ok state' /\
    in_bounds state' = false /\
    ltb (length state') (length_min state') = true.
Proof.
  split; [reflexivity|]. split; [discriminate|].
  eexists. split; [reflexivity|]. split; reflexivity.
Qed.

(** C1, amended.  For a state whose width is a well-formed non-negative
    double inside [[length_min, length_max]] and a non-empty batch,
    [update_state] returns a state with the same bounds whose width is
    at most [length_max]; the width is at least [length_min] unless the
    call has halved it, in which case it may be below [length_min], and
    then [restart_triggered] is set. *)
Theorem update_state_length_bounds (state : TurboState) (Y_next : ftensor) :
  entries Y_next <> [] ->
  valid (length state) = true ->
  leb zero (length state) = true ->
  leb (length_min state) (length state) = true ->
  leb (length state) (length_max state) = true ->
  exists state',
    update_state state Y_next = Ok state' /\
    length_min state' = length_min state /\
    length_max state' = length_max state /\
    leb (length state') (length_max state') = true /\
    (leb (length_min state') (length state') = true \/
     (length state' = div (length state) two /\
      ltb (length state') (length_min state') = true /\
      restart_triggered state' = true)).
Proof.
  intros NE V P Lo Hi. destruct (max_list_nonempty _ NE) as [y Hy].
  eexists. split; [apply update_state_steps; exact Hy|].
  rewrite flag_restart_length_min, flag_restart_length_max, flag_restart_length,
    flag_restart_spec.
  simpl. rewrite resize_region_length_min, resize_region_length_max.
  destruct (count_outcome_frame state (tensor_dtype Y_next) y)
    as (_ & _ & El & Emin & Emax & _).
  rewrite Emin, Emax. split; [reflexivity|]. split; [reflexivity|].
  destruct (leb_not_nan _ _ Lo) as [Nmin Nl].
  destruct (leb_not_nan _ _ Hi) as [_ Nmax].
  destruct (resize_region_length (count_outcome state (tensor_dtype Y_next) y))
    as [E|[E|[E _]]];
    rewrite E, ?El, ?Emax.
  - auto.
  - pose proof (mul_two_nonneg_grows _ V P) as G.
    destruct (leb_not_nan _ _ G) as [_ N2].
    destruct (min2_cap _ _ N2 Nmax) as [C [D|D]].
    + split; [exact C|]. left. rewrite D. eapply leb_trans; eauto.
    + split; [exact C|]. left. rewrite D. eapply leb_trans; eauto.
  - pose proof (div_two_nonneg_shrinks _ V P) as S.
    destruct (leb_not_nan _ _ S) as [Nh _].
    split; [eapply leb_trans; eauto|].
    destruct (ltb (div (length state) two) (length_min state)) eqn:B.
    + right. rewrite orb_true_r. auto.
    + left. apply leb_total; assumption.
Qed.

Lemma update_state_length_bounds_witness :
  exists state',
    update_state Examples.shrunk_state Examples.low_batch = Ok state' /\
    length_min state' = length_min Examples.shrunk_state /\
    length_max state' = length_max Examples.shrunk_state /\
    leb (length state') (length_max state') = true /\
    (leb (length_min state') (length state') = true \/
     (length state' = div (length Examples.shrunk_state) two /\
      ltb (length state') (length_min state') = true /\
      restart_triggered state' = true)).
Proof.
  apply (update_state_length_bounds Examples.shrunk_state Examples.low_batch);
    [discriminate|reflexivity|reflexivity|reflexivity|reflexivity].
Defined.

(** ** Tensor entries and list helpers *)

Lemma tle_fin a b : tle (TFin a) (TFin b) = true <-> (a <= b)%Q.
Proof.
  unfold tle, tcompare. rewrite Qle_alt.
  destruct (a ?= b)%Q; split; intros; try reflexivity; try discriminate; congruence.
Qed.

Lemma tlt_fin a b : tlt (TFin a) (TFin b) = true <-> (a < b)%Q.
Proof.
  unfold tlt, tcompare. rewrite Qlt_alt.
  destruct (a ?= b)%Q; split; intros; try reflexivity; try discriminate; congruence.
Qed.

Lemma tlt_fin_false a b : tlt (TFin a) (TFin b) = false <-> (b <= a)%Q.
Proof.
  rewrite <- not_true_iff_false, tlt_fin. split; [apply Qnot_lt_le|apply Qle_not_lt].
Qed.

Lemma in_unit_fin v :
  in_unit v = true <-> exists q, v = TFin q /\ (0 <= q <= 1)%Q.
Proof.
  unfold in_unit. rewrite andb_true_iff. split.
  - intros [L H]. destruct v as [| |q|]; try discriminate.
    exists q. split; [reflexivity|].
    apply tle_fin in L. apply tle_fin in H. split; assumption.
  - intros (q & -> & L & H). split; apply tle_fin; assumption.
Qed.

Lemma clamp_in_unit v :
  t_is_nan v = false -> in_unit (clamp tzero tone v) = true.
Proof.
  destruct v as [| |q|]; try discriminate; intros _; try reflexivity.
  unfold clamp. apply in_unit_fin.
  destruct (tlt (TFin q) tzero) eqn:L.
  - exists 0%Q. split; [reflexivity|lra].
  - apply tlt_fin_false in L.
    destruct (tlt tone (TFin q)) eqn:H.
    + exists 1%Q. split; [reflexivity|lra].
    + apply tlt_fin_false in H. exists q. split; [reflexivity|lra].
Qed.

Lemma affine_in_unit lo hi p :
  in_unit lo = true -> in_unit hi = true -> in_unit p = true ->
  in_unit (tadd lo (tmul (tsub hi lo) p)) = true.
Proof.
  intros L H P.
  apply in_unit_fin in L. destruct L as (a & -> & La).
  apply in_unit_fin in H. destruct H as (b & -> & Lb).
  apply in_unit_fin in P. destruct P as (t & -> & Lt).
  apply in_unit_fin. cbn [tadd tmul tsub tneg]. eexists. split; [reflexivity|].
  rewrite !Qred_correct. nra.
Qed.

(** order on entries *)
Lemma tle_not_nan a b : tle a b = true -> t_is_nan a = false /\ t_is_nan b = false.
Proof. destruct a, b; simpl; intros H; try discriminate; auto. Qed.

Lemma tle_trans a b c : tle a b = true -> tle b c = true -> tle a c = true.
Proof.
  destruct a as [| |x|], b as [| |y|], c as [| |z|]; intros H1 H2;
    try discriminate; try reflexivity.
  apply tle_fin in H1. apply tle_fin in H2. apply tle_fin. lra.
Qed.

Lemma tlt_tle a b : tlt a b = true -> tle a b = true.
Proof.
  destruct a as [| |x|], b as [| |y|]; intros H; try discriminate; try reflexivity.
  apply tlt_fin in H. apply tle_fin. lra.
Qed.

Lemma tle_refl a : t_is_nan a = false -> tle a a = true.
Proof.
  destruct a as [| |x|]; intros H; try discriminate; try reflexivity.
  apply tle_fin. lra.
Qed.

Lemma tle_total a b :
  t_is_nan a = false -> t_is_nan b = false -> tlt b a = false -> tle a b = true.
Proof.
  destruct a as [| |x|], b as [| |y|]; intros Na Nb H;
    try discriminate; try reflexivity.
  apply tlt_fin_false in H. apply tle_fin. exact H.
Qed.

Lemma tmin2_lower x a m :
  tle m (tmin2 x a) = true -> tle m x = true /\ tle m a = true.
Proof.
  intros H. destruct (tle_not_nan _ _ H) as [Nm N]. revert H N. unfold tmin2.
  destruct (t_is_nan x) eqn:Nx; [intros _ N; rewrite Nx in N; discriminate|].
  destruct (t_is_nan a) eqn:Na; [intros _ N; rewrite Na in N; discriminate|].
  destruct (tlt a x) eqn:L; intros H _.
  - split; [|exact H]. apply tle_trans with a; [exact H|apply tlt_tle; exact L].
  - split; [exact H|]. apply tle_trans with x; [exact H|apply tle_total; assumption].
Qed.

Lemma tmax2_upper x a m :
  tle (tmax2 x a) m = true -> tle x m = true /\ tle a m = true.
Proof.
  intros H. destruct (tle_not_nan _ _ H) as [N Nm]. revert H N. unfold tmax2.
  destruct (t_is_nan x) eqn:Nx; [intros _ N; rewrite Nx in N; discriminate|].
  destruct (t_is_nan a) eqn:Na; [intros _ N; rewrite Na in N; discriminate|].
  destruct (tlt x a) eqn:L; intros H _.
  - split; [|exact H]. apply tle_trans with a; [apply tlt_tle; exact L|exact H].
  - split; [exact H|]. apply tle_trans with x; [apply tle_total; assumption|exact H].
Qed.

Lemma fold_tmin2_lower l : forall x m,
  tle m (fold_left tmin2 l x) = true ->
  tle m x = true /\ Forall (fun v => tle m v = true) l.
Proof.
  induction l as [|a l IH]; intros x m H; simpl in H.
  - split; [exact H|constructor].
  - destruct (IH _ _ H) as [H1 H2]. destruct (tmin2_lower _ _ _ H1) as [Hx Ha].
    split; [exact Hx|constructor; assumption].
Qed.

Lemma fold_tmax2_upper l : forall x m,
  tle (fold_left tmax2 l x) m = true ->
  tle x m = true /\ Forall (fun v => tle v m = true) l.
Proof.
  induction l as [|a l IH]; intros x m H; simpl in H.
  - split; [exact H|constructor].
  - destruct (IH _ _ H) as [H1 H2]. destruct (tmax2_upper _ _ _ H1) as [Hx Ha].
    split; [exact Hx|constructor; assumption].
Qed.

Lemma domain_check_in_unit X Y :
  domain_check X Y = Ok true ->
  Forall (Forall (fun v => in_unit v = true)) X /\ all_finite Y = true.
Proof.
  unfold domain_check, tensor_min, tensor_max, reduce.
  destruct (List.concat X) as [|x l] eqn:C; simpl; [discriminate|].
  destruct (tge _ tzero) eqn:Lo; [|discriminate].
  destruct (tle _ tone) eqn:Hi; simpl; [|discriminate].
  intros F. injection F as F. split; [|exact F].
  apply Forall_concat. rewrite C.
  destruct (fold_tmin2_lower _ _ _ Lo) as [Lx Ll].
  destruct (fold_tmax2_upper _ _ _ Hi) as [Hx Hl].
  constructor.
  - unfold in_unit. rewrite Lx, Hx. reflexivity.
  - rewrite Forall_forall in *. intros v Hv. unfold in_unit.
    rewrite (Ll v Hv), (Hl v Hv). reflexivity.
Qed.

(** lists *)
Lemma zip_with_Forall {A B C} (f : A -> B -> C)
    (P : A -> Prop) (Q : B -> Prop) (R : C -> Prop) :
  (forall x y, P x -> Q y -> R (f x y)) ->
  forall a b r, zip_with f a b = Ok r -> Forall P a -> Forall Q b -> Forall R r.
Proof.
  intros H. induction a as [|x a IH]; intros [|y b] r E Fa Fb; simpl in E;
    try discriminate.
  - injection E as <-. constructor.
  - destruct (zip_with f a b) as [r'|] eqn:Z; simpl in E; [|discriminate].
    injection E as <-. inversion Fa; inversion Fb; subst.
    constructor; [auto|eapply IH; eauto].
Qed.

Lemma zip_with_length {A B C} (f : A -> B -> C) :
  forall a b r, zip_with f a b = Ok r ->
  List.length r = List.length a /\ List.length b = List.length a.
Proof.
  induction a as [|x a IH]; intros [|y b] r E; simpl in E; try discriminate.
  - injection E as <-. auto.
  - destruct (zip_with f a b) as [r'|] eqn:Z; simpl in E; [|discriminate].
    injection E as <-. destruct (IH _ _ Z). simpl. split; congruence.
Qed.

Lemma map_rows_Forall {A B} (f : A -> result B) (P : A -> Prop) (R : B -> Prop) :
  (forall x y, P x -> f x = Ok y -> R y) ->
  forall l r, map_rows f l = Ok r -> Forall P l -> Forall R r.
Proof.
  intros H. induction l as [|x l IH]; intros r E F; simpl in E.
  - injection E as <-. constructor.
  - destruct (f x) as [y|] eqn:Fx; simpl in E; [|discriminate].
    destruct (map_rows f l) as [r'|] eqn:M; simpl in E; [|discriminate].
    injection E as <-. inversion F; subst. constructor; eauto.
Qed.

Lemma masked_assign_row_Forall (R : tnum -> Prop) :
  forall x m p r, masked_assign_row x m p = Ok r ->
  Forall R x -> Forall R p -> Forall R r.
Proof.
  induction x as [|xv x IH]; intros [|b m] [|pv p] r E Fx Fp; simpl in E;
    try discriminate.
  - injection E as <-. constructor.
  - destruct (masked_assign_row x m p) as [r'|] eqn:M; simpl in E; [|discriminate].
    injection E as <-. inversion Fx; inversion Fp; subst.
    constructor; [destruct b; assumption|eapply IH; eauto].
Qed.

Lemma masked_assign_Forall (R : tnum -> Prop) :
  forall X mask P r, masked_assign X mask P = Ok r ->
  Forall (Forall R) X -> Forall (Forall R) P -> Forall (Forall R) r.
Proof.
  induction X as [|x X IH]; intros [|m mask] [|p P] r E FX FP; simpl in E;
    try discriminate.
  - injection E as <-. constructor.
  - destruct (masked_assign_row x m p) as [r0|] eqn:M0; simpl in E; [|discriminate].
    destruct (masked_assign X mask P) as [r'|] eqn:M; simpl in E; [|discriminate].
    injection E as <-. inversion FX; inversion FP; subst.
    constructor; [eapply masked_assign_row_Forall; eauto|eapply IH; eauto].
Qed.

Lemma row_Forall {P : tensor1 -> Prop} X i r :
  row X i = Ok r -> Forall P X -> P r.
Proof.
  unfold row. destruct (nth_error X i) as [r'|] eqn:N; [|discriminate].
  intros E F. injection E as <-. rewrite Forall_forall in F.
  apply F. eapply nth_error_In; eauto.
Qed.

Lemma Forall_repeat {A} (P : A -> Prop) a n : P a -> Forall P (repeat a n).
Proof. intros H. induction n; simpl; constructor; auto. Qed.

Lemma bind_ok {A B} (r : result A) (k : A -> result B) b :
  bind r k = Ok b -> exists a, r = Ok a /\ k a = Ok b.
Proof. destruct r as [a|e]; simpl; [eauto|discriminate]. Qed.


(** ** Strings *)

Lemma prefix_nil_r a : prefix a ""%string = true -> a = ""%string.
Proof. destruct a; [reflexivity|discriminate]. Qed.

Lemma str_in_ts (acqf : string) :
  str_in acqf "ts"%string = true <-> In acqf [""; "t"; "s"; "ts"]%string.
Proof.
  split.
  - destruct acqf as [|a rest]; [simpl; auto|].
    simpl. destruct (ascii_dec a "t"%char) as [->|Nt].
    + destruct rest as [|b rest]; [auto|].
      destruct (ascii_dec b "s"%char) as [->|Ns].
      * destruct rest; [auto|]. simpl.
        destruct (ascii_dec "t"%char "s"%char); discriminate.
      * simpl. destruct (ascii_dec "t"%char "s"%char); discriminate.
    + simpl. destruct (ascii_dec a "s"%char) as [->|Ns]; [|discriminate].
      destruct rest; [auto|discriminate].
  - intros [<-|[<-|[<-|[<-|[]]]]]; reflexivity.
Qed.

Section NotebookFacts.

Context {backend : TorchBackend}.

(** *** Successful runs, step by step *)

Lemma bindM_ok {A B} (c : M A) (k : A -> M B) w b w' :
  bindM c k w = (Ok b, w') ->
  exists a w1, c w = (Ok a, w1) /\ k a w1 = (Ok b, w').
Proof.
  unfold bindM. destruct (c w) as [[a|e] w1]; [eauto|discriminate].
Qed.

Lemma lift_ok {A} (r : result A) w a w' :
  lift r w = (Ok a, w') -> r = Ok a /\ w' = w.
Proof. unfold lift. intros E. injection E as -> ->. auto. Qed.

Lemma draw_ok {A} (f : rng_state -> option A * rng_state) w a w' :
  draw f w = (Ok a, w') ->
  f (rng w) = (Some a, rng w') /\ gp w' = gp w.
Proof.
  unfold draw. destruct (f (rng w)) as [[a'|] g]; simpl; [|discriminate].
  intros E. injection E as -> <-. auto.
Qed.

Lemma trust_region_ok state m X Y c lb ub :
  trust_region state m X Y = Ok (c, lb, ub) ->
  exists i wts,
    argmax Y = Ok i /\ row X i = Ok c /\
    normalised_weights (lengthscale m) = Ok wts /\
    tr_lower c wts state = Ok lb /\ tr_upper c wts state = Ok ub.
Proof.
  unfold trust_region. intros H.
  apply bind_ok in H. destruct H as (i & Hi & H).
  apply bind_ok in H. destruct H as (c' & Hc & H).
  apply bind_ok in H. destruct H as (wts & Hw & H).
  apply bind_ok in H. destruct H as (lb' & Hlb & H).
  apply bind_ok in H. destruct H as (ub' & Hub & H).
  injection H as -> -> ->. eauto 10.
Qed.

Lemma thompson_branch_ok X c lb ub n w smp x w' :
  thompson_branch X c lb ub n w = (Ok (smp, x), w') ->
  exists pert g1 pert' mask X_cand idx,
    sobol_draw (width X) n (rng w) = (Some pert, g1) /\
    map_rows (affine_row lb ub) pert = Ok pert' /\
    masked_assign (repeat c (Z.to_nat n)) mask pert' = Ok X_cand /\
    argmax smp = Ok idx /\
    row X_cand idx = Ok x /\
    gp w' = set_training false (gp w).
Proof.
  unfold thompson_branch. intros H.
  apply bindM_ok in H. destruct H as (pert & w1 & H1 & H).
  apply draw_ok in H1. destruct H1 as [S1 G1].
  apply bindM_ok in H. destruct H as (pert' & w2 & H2 & H).
  apply lift_ok in H2. destruct H2 as [A2 ->].
  apply bindM_ok in H. destruct H as (p & w3 & H3 & H).
  apply lift_ok in H3. destruct H3 as [A3 ->].
  apply bindM_ok in H. destruct H as (u & w4 & H4 & H).
  apply draw_ok in H4. destruct H4 as [S4 G4].
  apply bindM_ok in H. destruct H as (cols & w5 & H5 & H).
  apply draw_ok in H5. destruct H5 as [S5 G5].
  apply bindM_ok in H. destruct H as (mask & w6 & H6 & H).
  apply lift_ok in H6. destruct H6 as [A6 ->].
  apply bindM_ok in H. destruct H as (X_cand & w7 & H7 & H).
  apply lift_ok in H7. destruct H7 as [A7 ->].
  apply bindM_ok in H. destruct H as ([] & w8 & H8 & H).
  unfold model_eval in H8. injection H8 as <-.
  apply bindM_ok in H. destruct H as (smp' & w9 & H9 & H).
  unfold sample_posterior in H9. simpl in H9.
  destruct (posterior_sample _ _ _) as [[s|] g9]; simpl in H9; [|discriminate].
  injection H9 as -> <-.
  apply bindM_ok in H. destruct H as (idx & w10 & H10 & H).
  apply lift_ok in H10. destruct H10 as [A10 ->].
  apply bindM_ok in H. destruct H as (x' & w11 & H11 & H).
  apply lift_ok in H11. destruct H11 as [A11 ->].
  unfold ret in H. injection H as -> -> <-.
  exists pert, (rng w1), pert', mask, X_cand, idx.
  repeat split; try assumption.
  simpl. rewrite G5, G4, G1. reflexivity.
Qed.

Lemma generate_batch_ok state X Y bs n nr rs acqf w x w' :
  generate_batch state X Y bs n nr rs acqf w = (Ok x, w') ->
  domain_check X Y = Ok true /\
  exists c lb ub smp,
    trust_region state (gp w) X Y = Ok (c, lb, ub) /\
    generate_batch_locals state X Y bs n nr rs acqf w = (Ok (Some (smp, x)), w') /\
    thompson_branch X c lb ub
      match n with Some n0 => n0 | None => default_n_candidates X end w
    = (Ok (smp, x), w').
Proof.
  unfold generate_batch. intros H.
  apply bindM_ok in H. destruct H as (locals & w1 & HL & H).
  destruct locals as [[smp x']|]; [|discriminate].
  unfold ret in H. injection H as -> ->.
  pose proof HL as HL'.
  unfold generate_batch_locals in HL.
  apply bindM_ok in HL. destruct HL as ([] & w2 & H2 & HL).
  unfold assert_ in H2. destruct (str_in acqf "ts"); [|discriminate].
  injection H2 as <-.
  apply bindM_ok in HL. destruct HL as (ok & w3 & H3 & HL).
  apply lift_ok in H3. destruct H3 as [D ->].
  apply bindM_ok in HL. destruct HL as ([] & w4 & H4 & HL).
  unfold assert_ in H4. destruct ok; [|discriminate]. injection H4 as <-.
  apply bindM_ok in HL. destruct HL as (model & w5 & H5 & HL).
  unfold get_model in H5. injection H5 as <- <-.
  apply bindM_ok in HL. destruct HL as ([[c lb] ub] & w6 & H6 & HL).
  apply lift_ok in H6. destruct H6 as [T ->].
  destruct (String.eqb acqf "ts"); [|discriminate].
  apply bindM_ok in HL. destruct HL as ([smp0 x0] & w7 & H7 & HL).
  unfold ret in HL. injection HL as -> -> ->.
  split; [exact D|]. exists c, lb, ub, smp. auto.
Qed.

(** *** Where exceptions come from *)

Lemma foreign_ok {A} (a : A) : foreign (Ok a).
Proof. discriminate. Qed.

Lemma foreign_bind {A B} (r : result A) (k : A -> result B) :
  foreign r -> (forall a, foreign (k a)) -> foreign (bind r k).
Proof.
  destruct r as [a|e]; simpl; [auto|].
  unfold foreign. intros H _ E. apply H. congruence.
Qed.

Lemma foreign_reduce f l : foreign (reduce f l).
Proof. destruct l; discriminate. Qed.

Lemma foreign_domain_check X Y : foreign (domain_check X Y).
Proof.
  unfold domain_check, tensor_min, tensor_max.
  apply foreign_bind; [apply foreign_reduce|intros lo].
  destruct (tge lo tzero); [|discriminate].
  apply foreign_bind; [apply foreign_reduce|intros hi].
  destruct (tle hi tone); discriminate.
Qed.

Lemma foreign_argmax l : foreign (argmax l).
Proof. destruct l; discriminate. Qed.

Lemma foreign_row X i : foreign (row X i).
Proof. unfold row. destruct (nth_error X i); discriminate. Qed.

Lemma foreign_of_int n : foreign (of_int n).
Proof. unfold of_int. destruct (of_Z n); discriminate. Qed.

Lemma foreign_div_int x n : foreign (div_int x n).
Proof.
  unfold div_int. apply foreign_bind; [apply foreign_of_int|intros d].
  destruct (n =? 0); discriminate.
Qed.

Lemma foreign_zip_with {A B C} (f : A -> B -> C) a : forall b, foreign (zip_with f a b).
Proof.
  induction a as [|x a IH]; intros [|y b]; simpl; try discriminate.
  apply foreign_bind; [apply IH|intros r; discriminate].
Qed.

Lemma foreign_map_rows {A B} (f : A -> result B) l :
  (forall a, foreign (f a)) -> foreign (map_rows f l).
Proof.
  intros F. induction l as [|x l IH]; simpl; [discriminate|].
  apply foreign_bind; [apply F|intros y].
  apply foreign_bind; [apply IH|intros r; discriminate].
Qed.

Lemma foreign_affine_row lo hi p : foreign (affine_row lo hi p).
Proof.
  unfold affine_row.
  apply foreign_bind; [apply foreign_zip_with|intros d].
  apply foreign_bind; [apply foreign_zip_with|intros s].
  apply foreign_zip_with.
Qed.

Lemma foreign_set_nth {A} (l : list A) : forall i v, foreign (set_nth l i v).
Proof.
  induction l as [|x l IH]; intros [|i] v; simpl; try discriminate.
  apply foreign_bind; [apply IH|intros r; discriminate].
Qed.

Lemma foreign_set_entry mask i j : foreign (set_entry mask i j).
Proof.
  unfold set_entry. destruct (nth_error mask i); [|discriminate].
  apply foreign_bind; [apply foreign_set_nth|intros r; apply foreign_set_nth].
Qed.

Lemma foreign_set_entries ind : forall mask cols, foreign (set_entries mask ind cols).
Proof.
  induction ind as [|i ind IH]; intros mask [|j cols]; simpl; try discriminate.
  apply foreign_bind; [apply foreign_set_entry|intros m; apply IH].
Qed.

Lemma foreign_masked_assign_row x : forall m p, foreign (masked_assign_row x m p).
Proof.
  induction x as [|xv x IH]; intros [|b m] [|pv p]; simpl; try discriminate.
  apply foreign_bind; [apply IH|intros r; discriminate].
Qed.

Lemma foreign_masked_assign X : forall mask P, foreign (masked_assign X mask P).
Proof.
  induction X as [|x X IH]; intros [|m mask] [|p P]; simpl; try discriminate.
  apply foreign_bind; [apply foreign_masked_assign_row|intros r].
  apply foreign_bind; [apply IH|intros R; discriminate].
Qed.

Lemma foreign_normalised_weights ls : foreign (normalised_weights ls).
Proof.
  unfold normalised_weights.
  apply foreign_bind; [|intros k].
  - unfold squeezed_len. destruct (map _ ls) as [|? [|? ?]]; discriminate.
  - apply foreign_bind; [apply foreign_div_int|intros e; discriminate].
Qed.

Lemma foreign_trust_region state model X Y : foreign (trust_region state model X Y).
Proof.
  unfold trust_region, tr_lower, tr_upper.
  apply foreign_bind; [apply foreign_argmax|intros i].
  apply foreign_bind; [apply foreign_row|intros c].
  apply foreign_bind; [apply foreign_normalised_weights|intros wts].
  apply foreign_bind; [|intros lb].
  { apply foreign_bind; [apply foreign_zip_with|intros d; discriminate]. }
  apply foreign_bind; [|intros ub; discriminate].
  apply foreign_bind; [apply foreign_zip_with|intros d; discriminate].
Qed.

Lemma foreign_prob_perturb d : foreign (prob_perturb d).
Proof.
  unfold prob_perturb. apply foreign_bind; [apply foreign_div_int|discriminate].
Qed.

Lemma foreignM_ret {A} (a : A) : foreignM (ret a).
Proof. intros w. discriminate. Qed.

Lemma foreignM_lift {A} (r : result A) : foreign r -> foreignM (lift r).
Proof. intros F w. exact F. Qed.

Lemma foreignM_draw {A} (f : rng_state -> option A * rng_state) : foreignM (draw f).
Proof.
  intros w. unfold draw. destruct (f (rng w)) as [[a|] g]; discriminate.
Qed.

Lemma foreignM_bind {A B} (c : M A) (k : A -> M B) :
  foreignM c -> (forall a, foreignM (k a)) -> foreignM (bindM c k).
Proof.
  intros Fc Fk w. unfold bindM. specialize (Fc w).
  destruct (c w) as [[a|e] w']; simpl in *; [apply Fk|].
  unfold foreign in *. intros E. apply Fc. congruence.
Qed.

Lemma foreignM_thompson X c lb ub n : foreignM (thompson_branch X c lb ub n).
Proof.
  unfold thompson_branch.
  apply foreignM_bind; [apply foreignM_draw|intros pert].
  apply foreignM_bind;
    [apply foreignM_lift, foreign_map_rows; intros; apply foreign_affine_row|intros pert'].
  apply foreignM_bind; [apply foreignM_lift, foreign_prob_perturb|intros p].
  apply foreignM_bind; [apply foreignM_draw|intros u].
  apply foreignM_bind; [apply foreignM_draw|intros cols].
  apply foreignM_bind; [apply foreignM_lift, foreign_set_entries|intros mask].
  apply foreignM_bind; [apply foreignM_lift, foreign_masked_assign|intros X_cand].
  apply foreignM_bind; [intros w; discriminate|intros _].
  apply foreignM_bind; [|intros sample].
  { intros w. unfold sample_posterior.
    destruct (posterior_sample _ _ _) as [[a|] g]; discriminate. }
  apply foreignM_bind; [apply foreignM_lift, foreign_argmax|intros idx].
  apply foreignM_bind; [apply foreignM_lift, foreign_row|intros x].
  apply foreignM_ret.
Qed.

Lemma generate_batch_assertion state X Y bs n nr rs acqf w :
  fst (generate_batch state X Y bs n nr rs acqf w) = Raise AssertionError <->
  str_in acqf "ts"%string = false \/ domain_check X Y = Ok false.
Proof.
  unfold generate_batch, generate_batch_locals.
  unfold bindM at 1 2. unfold assert_ at 1.
  destruct (str_in acqf "ts"%string) eqn:S.
  - unfold ret at 1. unfold bindM at 1. unfold lift at 1.
    pose proof (foreign_domain_check X Y) as FD.
    destruct (domain_check X Y) as [[|]|e] eqn:D.
    + unfold bindM at 1. unfold assert_, ret at 1.
      unfold bindM at 1. unfold get_model.
      unfold bindM at 1. unfold lift at 1.
      pose proof (foreign_trust_region state (gp w) X Y) as FT.
      destruct (trust_region state (gp w) X Y) as [[[c lb] ub]|e] eqn:T.
      * destruct (String.eqb acqf "ts"%string).
        -- unfold bindM at 1.
           pose proof (foreignM_thompson X c lb ub
                         match n with Some n0 => n0 | None => default_n_candidates X end w) as FB.
           destruct (thompson_branch _ _ _ _ _ w) as [[[smp x]|e] w']; simpl.
           ++ split; [discriminate|intros [?|?]; discriminate].
           ++ split; [|intros [?|?]; discriminate].
              intros E. exfalso. apply FB. simpl. congruence.
        -- simpl. split; [discriminate|intros [?|?]; discriminate].
      * simpl. split; [|intros [?|?]; discriminate].
        intros E. exfalso. apply FT. congruence.
    + simpl. split; auto.
    + simpl. split; [|intros [?|?]; discriminate].
      intros E. exfalso. apply FD. congruence.
  - simpl. split; auto.
Qed.

(** *** What a call does to the model object *)

Lemma set_training_idem b m : set_training b (set_training b m) = set_training b m.
Proof. reflexivity. Qed.

Lemma set_training_hyperparameters b m :
  hyperparameters (set_training b m) = hyperparameters m.
Proof. reflexivity. Qed.

Lemma mode_step_refl m : mode_step m m.
Proof. left. reflexivity. Qed.

Lemma mode_step_trans m1 m2 m3 : mode_step m1 m2 -> mode_step m2 m3 -> mode_step m1 m3.
Proof.
  intros [-> | ->] [-> | ->]; unfold mode_step; auto.
Qed.

Lemma frames_ret {A} (a : A) : frames (ret a).
Proof. intros w. apply mode_step_refl. Qed.

Lemma frames_raise {A} e : frames (@raise _ A e).
Proof. intros w. apply mode_step_refl. Qed.

Lemma frames_lift {A} (r : result A) : frames (lift r).
Proof. intros w. apply mode_step_refl. Qed.

Lemma frames_assert b : frames (assert_ b).
Proof. destruct b; [apply frames_ret|apply frames_raise]. Qed.

Lemma frames_draw {A} (f : rng_state -> option A * rng_state) : frames (draw f).
Proof. intros w. unfold draw. destruct (f (rng w)). apply mode_step_refl. Qed.

Lemma frames_get_model : frames get_model.
Proof. intros w. apply mode_step_refl. Qed.

Lemma frames_model_eval : frames model_eval.
Proof. intros w. right. reflexivity. Qed.

Lemma frames_sample_posterior X : frames (sample_posterior X).
Proof.
  intros w. unfold sample_posterior. destruct (posterior_sample _ _ _).
  apply mode_step_refl.
Qed.

Lemma frames_bind {A B} (c : M A) (k : A -> M B) :
  frames c -> (forall a, frames (k a)) -> frames (bindM c k).
Proof.
  intros Fc Fk w. unfold bindM. specialize (Fc w).
  destruct (c w) as [[a|e] w1]; simpl in *; [|exact Fc].
  eapply mode_step_trans; [exact Fc|apply Fk].
Qed.

Lemma frames_thompson X c lb ub n : frames (thompson_branch X c lb ub n).
Proof.
  unfold thompson_branch.
  repeat first
    [ apply frames_ret | apply frames_lift | apply frames_draw
    | apply frames_model_eval | apply frames_sample_posterior
    | apply frames_bind; [|intros ?] ].
Qed.

Lemma frames_locals state X Y bs n nr rs acqf :
  frames (generate_batch_locals state X Y bs n nr rs acqf).
Proof.
  unfold generate_batch_locals.
  apply frames_bind; [apply frames_assert|intros _].
  apply frames_bind; [apply frames_lift|intros ok].
  apply frames_bind; [apply frames_assert|intros _].
  apply frames_bind; [apply frames_get_model|intros model].
  apply frames_bind; [apply frames_lift|intros [[c lb] ub]].
  destruct (String.eqb acqf "ts"); [|apply frames_ret].
  apply frames_bind; [apply frames_thompson|intros locals; apply frames_ret].
Qed.

Lemma frames_generate_batch state X Y bs n nr rs acqf :
  frames (generate_batch state X Y bs n nr rs acqf).
Proof.
  unfold generate_batch.
  apply frames_bind; [apply frames_locals|intros [[smp x]|]];
    [apply frames_ret|apply frames_raise].
Qed.

Lemma alike_refl w : alike w w.
Proof. split; reflexivity. Qed.

Lemma alike_lengthscale w1 w2 :
  alike w1 w2 -> lengthscale (gp w1) = lengthscale (gp w2).
Proof.
  intros [_ E].
  change (lengthscale (set_training false (gp w1))
          = lengthscale (set_training false (gp w2))).
  rewrite E. reflexivity.
Qed.

Lemma blind_ret {A} (a : A) : blind (ret a).
Proof. intros w1 w2 H. split; [reflexivity|exact H]. Qed.

Lemma blind_raise {A} e : blind (@raise _ A e).
Proof. intros w1 w2 H. split; [reflexivity|exact H]. Qed.

Lemma blind_lift {A} (r : result A) : blind (lift r).
Proof. intros w1 w2 H. split; [reflexivity|exact H]. Qed.

Lemma blind_assert b : blind (assert_ b).
Proof. destruct b; [apply blind_ret|apply blind_raise]. Qed.

Lemma blind_draw {A} (f : rng_state -> option A * rng_state) : blind (draw f).
Proof.
  intros w1 w2 [R G]. unfold draw. rewrite R.
  destruct (f (rng w2)) as [r g]. split; [reflexivity|]. split; [reflexivity|exact G].
Qed.

Lemma blind_bind {A B} (c : M A) (k : A -> M B) :
  blind c -> (forall a, blind (k a)) -> blind (bindM c k).
Proof.
  intros Bc Bk w1 w2 H. unfold bindM. destruct (Bc w1 w2 H) as [E S].
  destruct (c w1) as [[a|e] v1], (c w2) as [[a'|e'] v2]; simpl in *;
    try discriminate.
  - injection E as <-. apply Bk. exact S.
  - injection E as <-. split; [reflexivity|exact S].
Qed.

Lemma trust_region_lengthscale state m m' X Y :
  lengthscale m = lengthscale m' ->
  trust_region state m X Y = trust_region state m' X Y.
Proof. intros E. unfold trust_region. rewrite E. reflexivity. Qed.

Lemma blind_after_eval {A} (k : M A) :
  blind (bindM model_eval (fun _ => k)).
Proof.
  intros w1 w2 [R G]. unfold bindM, model_eval. rewrite R, G.
  split; [reflexivity|apply alike_refl].
Qed.

Lemma blind_thompson X c lb ub n : blind (thompson_branch X c lb ub n).
Proof.
  unfold thompson_branch.
  apply blind_bind; [apply blind_draw|intros pert].
  apply blind_bind; [apply blind_lift|intros pert'].
  apply blind_bind; [apply blind_lift|intros p].
  apply blind_bind; [apply blind_draw|intros u].
  apply blind_bind; [apply blind_draw|intros cols].
  apply blind_bind; [apply blind_lift|intros mask].
  apply blind_bind; [apply blind_lift|intros X_cand].
  apply blind_after_eval.
Qed.

Lemma blind_locals state X Y bs n nr rs acqf :
  blind (generate_batch_locals state X Y bs n nr rs acqf).
Proof.
  unfold generate_batch_locals.
  apply blind_bind; [apply blind_assert|intros _].
  apply blind_bind; [apply blind_lift|intros ok].
  apply blind_bind; [apply blind_assert|intros _].
  intros w1 w2 H. unfold bindM, get_model, lift, ret. simpl.
  rewrite (trust_region_lengthscale state (gp w1) (gp w2) X Y
             (alike_lengthscale _ _ H)).
  destruct (trust_region state (gp w2) X Y) as [[[c lb] ub]|e]; simpl;
    [|split; [reflexivity|exact H]].
  destruct (String.eqb acqf "ts"); [|split; [reflexivity|exact H]].
  destruct (blind_thompson X c lb ub
              match n with Some n0 => n0 | None => default_n_candidates X end
              w1 w2 H) as [E S].
  destruct (thompson_branch _ _ _ _ _ w1) as [[a|e] v1],
           (thompson_branch _ _ _ _ _ w2) as [[a'|e'] v2];
    simpl in *; try discriminate; injection E as <-;
    (split; [reflexivity|exact S]).
Qed.

Lemma blind_generate_batch state X Y bs n nr rs acqf :
  blind (generate_batch state X Y bs n nr rs acqf).
Proof.
  unfold generate_batch.
  apply blind_bind; [apply blind_locals|intros [[smp x]|]];
    [apply blind_ret|apply blind_raise].
Qed.

Lemma rerun_same {A} (c : M A) w :
  frames c -> blind c ->
  c (rerun w (snd (c w))) = (fst (c w), snd (c w)).
Proof.
  intros F B. pose proof (F w) as [E|E].
  - unfold rerun. rewrite E. destruct w; simpl. destruct (c _); reflexivity.
  - assert (H : alike w (rerun w (snd (c w)))).
    { split; [reflexivity|]. unfold rerun. simpl. rewrite E. reflexivity. }
    destruct (B _ _ H) as [Er [Eg Em]].
    pose proof (F (rerun w (snd (c w)))) as F2. simpl in F2.
    destruct (c (rerun w (snd (c w)))) as [r2 w2] eqn:C2. simpl in *.
    f_equal; [symmetry; exact Er|].
    destruct w2 as [m2 g2], (snd (c w)) as [m1 g1]. simpl in *. subst g2.
    f_equal. destruct F2 as [-> | ->]; [reflexivity|].
    rewrite E. reflexivity.
Qed.

(** A second run of [generate_batch] that starts from the model object
    as the first run left it (in evaluation mode, after [model.eval()])
    and from the generator state the first run started from gives what
    the first run gave: the switch of mode made by the first run does
    not show in the second.  That the library draws are functions of the
    generator state is part of the backend interface, and is not proved
    here. *)
Lemma generate_batch_repeatable state X Y bs n nr rs acqf w :
  let first_run := generate_batch_locals state X Y bs n nr rs acqf w in
  let second_run :=
    generate_batch_locals state X Y bs n nr rs acqf (rerun w (snd first_run)) in
  second_run = first_run /\
  generate_batch state X Y bs n nr rs acqf
    (rerun w (snd (generate_batch state X Y bs n nr rs acqf w)))
  = generate_batch state X Y bs n nr rs acqf w.
Proof.
  split.
  - rewrite rerun_same by (apply frames_locals || apply blind_locals).
    destruct (generate_batch_locals _ _ _ _ _ _ _ _ _); reflexivity.
  - rewrite rerun_same by (apply frames_generate_batch || apply blind_generate_batch).
    destruct (generate_batch _ _ _ _ _ _ _ _ _); reflexivity.
Qed.

(** *** The unit cube *)

Lemma half_widths_finite wts state :
  is_finite (length state) = true ->
  Forall (fun v => t_is_finite v = true) wts ->
  Forall (fun v => t_is_finite v = true) (half_widths wts state).
Proof.
  intros L F. unfold half_widths. apply Forall_map.
  eapply Forall_impl; [|exact F]. intros v Hv.
  destruct v as [| |q|]; try discriminate.
  destruct (length state) as [s|s| |s m e]; try discriminate; reflexivity.
Qed.

Lemma clamped_in_unit (f : tnum -> tnum -> tnum) c hw d :
  (forall a b, t_is_finite a = true -> t_is_finite b = true ->
               t_is_nan (f a b) = false) ->
  zip_with f c hw = Ok d ->
  Forall (fun v => in_unit v = true) c ->
  Forall (fun v => t_is_finite v = true) hw ->
  Forall (fun v => in_unit v = true) (map (clamp tzero tone) d).
Proof.
  intros Hf Z Fc Fh. apply Forall_map.
  apply (zip_with_Forall f (fun v => in_unit v = true)
           (fun v => t_is_finite v = true)
           (fun v => in_unit (clamp tzero tone v) = true))
    with (a := c) (b := hw); try assumption.
  intros a b Ha Hb. apply clamp_in_unit. apply Hf; [|exact Hb].
  apply in_unit_fin in Ha. destruct Ha as (q & -> & _). reflexivity.
Qed.

Lemma affine_row_in_unit lo : forall hi p r,
  Forall (fun v => in_unit v = true) lo ->
  Forall (fun v => in_unit v = true) hi ->
  Forall (fun v => in_unit v = true) p ->
  affine_row lo hi p = Ok r ->
  Forall (fun v => in_unit v = true) r.
Proof.
  unfold affine_row.
  induction lo as [|l lo IH]; intros [|h hi] [|pv p] r Fl Fh Fp E;
    simpl in E; try discriminate.
  - injection E as <-. constructor.
  - destruct (zip_with tsub hi lo) as [d|]; discriminate.
  - destruct (zip_with tsub hi lo) as [d|] eqn:E1; simpl in E; [|discriminate].
    destruct (zip_with tmul d p) as [s|] eqn:E2; simpl in E; [|discriminate].
    destruct (zip_with tadd lo s) as [r'|] eqn:E3; simpl in E; [|discriminate].
    injection E as <-. inversion Fl; inversion Fh; inversion Fp; subst.
    constructor; [apply affine_in_unit; assumption|].
    apply (IH hi p r'); try assumption.
    rewrite E1. simpl. rewrite E2. simpl. exact E3.
Qed.

(** The geometry of the candidates, in exact arithmetic: when the Sobol
    engine draws from the unit cube, the width [state.length] is finite
    and the normalised lengthscale weights are finite, every coordinate
    of a point returned by [generate_batch] lies in [[0, 1]].  The
    assertion puts the centre inside the unit cube, the bounds of the
    region are clamped to it, a perturbed coordinate lies between the
    bounds, and each coordinate of a candidate is a perturbed one or
    one of the centre.  The statement is about the exact values: the
    rounding that torch applies after each tensor operation is outside
    the model. *)
Lemma generate_batch_in_unit_cube state X Y bs n nr rs acqf w x w' :
  sobol_in_unit_cube ->
  is_finite (length state) = true ->
  (forall wts, normalised_weights (lengthscale (gp w)) = Ok wts ->
               Forall (fun v => t_is_finite v = true) wts) ->
  generate_batch state X Y bs n nr rs acqf w = (Ok x, w') ->
  Forall (fun v => in_unit v = true) x.
Proof.
  intros Sobol L W H.
  apply generate_batch_ok in H. destruct H as (D & c & lb & ub & smp & T & _ & B).
  apply domain_check_in_unit in D. destruct D as [FX _].
  apply trust_region_ok in T. destruct T as (i & wts & _ & Rc & Nw & Tl & Tu).
  pose proof (row_Forall _ _ _ Rc FX) as Fc.
  pose proof (half_widths_finite wts state L (W wts Nw)) as Fh.
  assert (Flb : Forall (fun v => in_unit v = true) lb).
  { unfold tr_lower in Tl. apply bind_ok in Tl. destruct Tl as (d & Z & E).
    injection E as <-. eapply clamped_in_unit; eauto.
    intros [| |a|] [| |b|]; try discriminate; reflexivity. }
  assert (Fub : Forall (fun v => in_unit v = true) ub).
  { unfold tr_upper in Tu. apply bind_ok in Tu. destruct Tu as (d & Z & E).
    injection E as <-. eapply clamped_in_unit; eauto.
    intros [| |a|] [| |b|]; try discriminate; reflexivity. }
  apply thompson_branch_ok in B.
  destruct B as (pert & g1 & pert' & mask & X_cand & idx & S & A & MA & _ & R & _).
  pose proof (Sobol _ _ _ _ _ S) as Fp.
  assert (Fp' : Forall (Forall (fun v => in_unit v = true)) pert').
  { apply (map_rows_Forall (affine_row lb ub)
             (Forall (fun v => in_unit v = true))
             (Forall (fun v => in_unit v = true))) with (l := pert);
      [|exact A|exact Fp].
    intros p r Hp E. exact (affine_row_in_unit lb ub p r Flb Fub Hp E). }
  eapply (row_Forall X_cand idx x R).
  eapply masked_assign_Forall; [exact MA| |exact Fp'].
  apply Forall_repeat. exact Fc.
Qed.

(** *** Runs that reach the end *)

Lemma digits2_iter_xO p d :
  Z.pos (digits2_pos (Pos.iter xO p d)) = Z.pos (digits2_pos p) + Z.pos d.
Proof.
  induction d as [|d IH] using Pos.peano_ind.
  - simpl. lia.
  - rewrite Pos.iter_succ. simpl digits2_pos. lia.
Qed.

Lemma of_Z_small p :
  Z.pos p < 2 ^ 53 -> exists m e, of_Z (Z.pos p) = S754_finite false m e.
Proof.
  intros B.
  assert (D : Z.pos (digits2_pos p) <= 53) by (apply digits2_le; lia).
  unfold of_Z, binary_normalize, binary_round, shl_align.
  rewrite fexp_unfold.
  replace (Z.max (Z.pos (digits2_pos p) + 0 - 53) (-1074) - 0)
    with (Z.pos (digits2_pos p) - 53) by lia.
  destruct (Z.pos (digits2_pos p) - 53) as [|q|q] eqn:E; try lia.
  - rewrite binary_round_aux_fits by (rewrite fexp_unfold; lia).
    destruct (_ <=? _) eqn:K; [eauto|]. apply Z.leb_gt in K. unfold emax, prec in K. lia.
  - rewrite binary_round_aux_fits
      by (rewrite digits2_iter_xO, fexp_unfold; lia).
    destruct (_ <=? _) eqn:K; [eauto|]. apply Z.leb_gt in K. unfold emax, prec in K. lia.
Qed.

Lemma of_int_small n :
  0 < n < 2 ^ 53 -> exists x, of_int n = Ok x.
Proof.
  intros [P B]. destruct n as [|p|p]; try lia.
  destruct (of_Z_small p B) as (m & e & E). unfold of_int. rewrite E. eauto.
Qed.

Lemma div_int_small x n :
  0 < n < 2 ^ 53 -> exists q, div_int x n = Ok q.
Proof.
  intros H. destruct (of_int_small n H) as (d & E). unfold div_int. rewrite E.
  simpl. destruct (Z.eqb_spec n 0); [lia|eauto].
Qed.

Lemma argmax_from_lt l : forall best bi i,
  (bi < i)%nat -> (argmax_from best bi i l < i + List.length l)%nat.
Proof.
  induction l as [|x l IH]; intros best bi i H; simpl.
  - lia.
  - destruct (better x best).
    + specialize (IH x i (S i)). lia.
    + specialize (IH best bi (S i)). lia.
Qed.

Lemma argmax_runs l :
  l <> [] -> exists i, argmax l = Ok i /\ (i < List.length l)%nat.
Proof.
  destruct l as [|x l]; [congruence|]. intros _. simpl. eexists. split; [reflexivity|].
  pose proof (argmax_from_lt l x 0%nat 1%nat). lia.
Qed.

Lemma row_runs {X : tensor2} i :
  (i < List.length X)%nat -> exists r, row X i = Ok r /\ In r X.
Proof.
  intros H. unfold row. destruct (nth_error X i) as [r|] eqn:E.
  - exists r. split; [reflexivity|]. eapply nth_error_In; eauto.
  - apply nth_error_None in E. lia.
Qed.

Lemma zip_with_runs {A B C} (f : A -> B -> C) : forall a b,
  List.length a = List.length b ->
  exists r, zip_with f a b = Ok r /\ List.length r = List.length a.
Proof.
  induction a as [|x a IH]; intros [|y b] H; simpl in H; try discriminate.
  - exists []. auto.
  - destruct (IH b) as (r & E & L); [lia|]. simpl. rewrite E. simpl.
    eexists. split; [reflexivity|]. simpl. lia.
Qed.

Lemma affine_row_runs lo hi p d :
  List.length lo = d -> List.length hi = d -> List.length p = d ->
  exists r, affine_row lo hi p = Ok r /\ List.length r = d.
Proof.
  intros L H P. unfold affine_row.
  destruct (zip_with_runs tsub hi lo) as (dl & E1 & L1); [lia|]. rewrite E1. simpl.
  destruct (zip_with_runs tmul dl p) as (s & E2 & L2); [lia|]. rewrite E2. simpl.
  destruct (zip_with_runs tadd lo s) as (r & E3 & L3); [lia|]. rewrite E3.
  exists r. split; [reflexivity|lia].
Qed.

Lemma map_rows_runs {A B} (f : A -> result B) (P : A -> Prop) (R : B -> Prop) :
  (forall x, P x -> exists y, f x = Ok y /\ R y) ->
  forall l, Forall P l ->
  exists r, map_rows f l = Ok r /\ List.length r = List.length l /\ Forall R r.
Proof.
  intros H. induction l as [|x l IH]; intros F.
  - exists []. simpl. auto.
  - inversion F as [|? ? Px Fl]; subst.
    destruct (H x Px) as (y & Ey & Ry). destruct (IH Fl) as (r & Er & Lr & Fr).
    simpl. rewrite Ey. simpl. rewrite Er. simpl.
    eexists. split; [reflexivity|]. split; [simpl; lia|constructor; assumption].
Qed.

Lemma set_nth_runs {A} (l : list A) : forall i v,
  (i < List.length l)%nat ->
  exists r, set_nth l i v = Ok r /\ List.length r = List.length l.
Proof.
  induction l as [|x l IH]; intros [|i] v H; simpl in *; try lia.
  - eexists. split; [reflexivity|]. reflexivity.
  - destruct (IH i v) as (r & E & L); [lia|]. rewrite E. simpl.
    eexists. split; [reflexivity|]. simpl. lia.
Qed.

Lemma set_nth_Forall {A} (P : A -> Prop) (l : list A) : forall i v r,
  set_nth l i v = Ok r -> Forall P l -> P v -> Forall P r.
Proof.
  induction l as [|x l IH]; intros [|i] v r E F Pv; simpl in E; try discriminate.
  - injection E as <-. inversion F; subst. constructor; assumption.
  - destruct (set_nth l i v) as [r'|] eqn:S; simpl in E; [|discriminate].
    injection E as <-. inversion F; subst. constructor; [assumption|eauto].
Qed.

Lemma set_entry_runs (mask : list (list bool)) n d i j :
  shaped n d mask -> (i < n)%nat -> (j < d)%nat ->
  exists r, set_entry mask i j = Ok r /\ shaped n d r.
Proof.
  intros [L F] Hi Hj. unfold set_entry.
  destruct (nth_error mask i) as [row0|] eqn:E;
    [|apply nth_error_None in E; lia].
  assert (Lr : List.length row0 = d).
  { rewrite Forall_forall in F. apply F. eapply nth_error_In; eauto. }
  destruct (set_nth_runs row0 j true) as (r' & E' & L'); [lia|].
  rewrite E'. simpl.
  destruct (set_nth_runs mask i r') as (r & Er & Lr'); [lia|].
  exists r. split; [exact Er|]. split; [lia|].
  eapply set_nth_Forall; eauto. lia.
Qed.

Lemma set_entries_runs n d ind : forall mask cols,
  shaped n d mask ->
  List.length cols = List.length ind ->
  Forall (fun i => (i < n)%nat) ind -> Forall (fun j => (j < d)%nat) cols ->
  exists r, set_entries mask ind cols = Ok r /\ shaped n d r.
Proof.
  induction ind as [|i ind IH]; intros mask [|j cols] S L Fi Fj; simpl in L;
    try discriminate.
  - exists mask. auto.
  - inversion Fi; inversion Fj; subst.
    destruct (set_entry_runs mask n d i j S) as (m' & E & S'); try assumption.
    simpl. rewrite E. simpl. apply IH; auto.
Qed.

Lemma empty_rows_from_lt mask : forall i,
  Forall (fun k => (k < i + List.length mask)%nat) (empty_rows_from i mask).
Proof.
  induction mask as [|r mask IH]; intros i; simpl; [constructor|].
  specialize (IH (S i)).
  assert (F : Forall (fun k => (k < i + S (List.length mask))%nat)
                (empty_rows_from (S i) mask)).
  { eapply Forall_impl; [|exact IH]. simpl. intros; lia. }
  destruct (existsb _ r); [exact F|constructor; [lia|exact F]].
Qed.

Lemma masked_assign_row_runs : forall x m p,
  List.length m = List.length x -> List.length p = List.length x ->
  exists r, masked_assign_row x m p = Ok r /\ List.length r = List.length x.
Proof.
  induction x as [|xv x IH]; intros [|b m] [|pv p] Lm Lp; simpl in *;
    try discriminate.
  - exists []. auto.
  - destruct (IH m p) as (r & E & L); [lia|lia|]. rewrite E. simpl.
    eexists. split; [reflexivity|]. simpl. lia.
Qed.

Lemma masked_assign_runs n d : forall X mask P,
  shaped n d X -> shaped n d mask -> shaped n d P ->
  exists r, masked_assign X mask P = Ok r /\ shaped n d r.
Proof.
  induction n as [|n IH]; intros X mask P [LX FX] [LM FM] [LP FP];
    destruct X as [|x X], mask as [|m mask], P as [|p P]; simpl in *;
    try discriminate.
  - exists []. split; [reflexivity|]. split; [reflexivity|constructor].
  - inversion FX; inversion FM; inversion FP; subst.
    destruct (masked_assign_row_runs x m p) as (r & E & L); [lia|lia|].
    rewrite E. simpl.
    destruct (IH X mask P) as (R & ER & [LR FR]); try (split; [lia|assumption]).
    rewrite ER. simpl. eexists. split; [reflexivity|].
    split; [simpl; lia|constructor; [lia|assumption]].
Qed.

Lemma shaped_repeat {A} (c : list A) n : shaped n (List.length c) (repeat c n).
Proof.
  split; [apply repeat_length|]. induction n; simpl; constructor; auto.
Qed.

Lemma shaped_map {A B} (f : A -> B) n d (T : list (list A)) :
  shaped n d T -> shaped n d (map (map f) T).
Proof.
  intros [L F]. split; [rewrite length_map; exact L|].
  apply Forall_map. eapply Forall_impl; [|exact F].
  intros r Hr. simpl. rewrite length_map. exact Hr.
Qed.

Lemma normalised_weights_runs ls d :
  List.length ls = d -> (2 <= d)%nat -> Z.of_nat d < 2 ^ 53 ->
  exists wts, normalised_weights ls = Ok wts /\ List.length wts = d.
Proof.
  intros L D B. unfold normalised_weights. cbv zeta.
  set (w := map (fun v => tdiv v (tensor_mean ls)) ls).
  assert (Lw : List.length w = d) by (unfold w; rewrite length_map; exact L).
  assert (E : squeezed_len w = Ok (Z.of_nat d)).
  { unfold squeezed_len. destruct w as [|a [|b r]]; simpl in Lw; try lia.
    rewrite <- Lw. reflexivity. }
  rewrite E. simpl.
  destruct (div_int_small one (Z.of_nat d)) as (e & Ee); [lia|].
  rewrite Ee. simpl. eexists. split; [reflexivity|].
  rewrite length_map. exact Lw.
Qed.

Lemma tr_bound_runs (f : tnum -> tnum -> tnum) c wts state d :
  List.length c = d -> List.length wts = d ->
  exists r,
    (x <- zip_with f c (half_widths wts state) ;;
     Ok (map (clamp tzero tone) x))%py = Ok r /\
    List.length r = d.
Proof.
  intros Lc Lw.
  destruct (zip_with_runs f c (half_widths wts state)) as (x & E & L).
  { unfold half_widths. rewrite length_map. lia. }
  rewrite E. simpl. eexists. split; [reflexivity|]. rewrite length_map. lia.
Qed.

Lemma trust_region_runs state m X Y d :
  X <> [] -> rectangular d X -> List.length Y = List.length X ->
  List.length (lengthscale m) = d -> (2 <= d)%nat -> Z.of_nat d < 2 ^ 53 ->
  exists c lb ub,
    trust_region state m X Y = Ok (c, lb, ub) /\
    List.length c = d /\ List.length lb = d /\ List.length ub = d.
Proof.
  intros NE R LY LS D B. unfold trust_region.
  destruct (argmax_runs Y) as (i & Ei & Li).
  { destruct Y; [destruct X; [congruence|discriminate]|discriminate]. }
  rewrite Ei. simpl.
  destruct (@row_runs X i) as (c & Ec & Ic); [lia|]. rewrite Ec. simpl.
  assert (Lc : List.length c = d).
  { unfold rectangular in R. rewrite Forall_forall in R. auto. }
  destruct (normalised_weights_runs (lengthscale m) d LS D B) as (wts & Ew & Lw).
  rewrite Ew. simpl.
  destruct (tr_bound_runs tsub c wts state d Lc Lw) as (lb & El & Ll).
  unfold tr_lower. rewrite El. simpl.
  destruct (tr_bound_runs tadd c wts state d Lc Lw) as (ub & Eu & Lu).
  unfold tr_upper. rewrite Eu. simpl.
  exists c, lb, ub. auto.
Qed.

Lemma bindM_run {A B} (c : M A) (k : A -> M B) w a w1 :
  c w = (Ok a, w1) -> bindM c k w = k a w1.
Proof. intros E. unfold bindM. rewrite E. reflexivity. Qed.

Lemma draw_run {A} (f : rng_state -> option A * rng_state) w a g :
  f (rng w) = (Some a, g) -> draw f w = (Ok a, mkWorld (gp w) g).
Proof. intros E. unfold draw. rewrite E. reflexivity. Qed.

Lemma lift_run {A} (r : result A) w : lift r w = (r, w).
Proof. reflexivity. Qed.

Lemma width_rectangular X d : X <> [] -> rectangular d X -> width X = Z.of_nat d.
Proof.
  destruct X as [|r X]; [congruence|]. intros _ R. inversion R; subst. reflexivity.
Qed.

Lemma thompson_branch_runs X c lb ub n w d :
  sobol_shape -> rand_shape -> randint_range -> posterior_shape ->
  (2 <= d)%nat -> Z.of_nat d < 2 ^ 53 -> width X = Z.of_nat d ->
  List.length c = d -> List.length lb = d -> List.length ub = d -> 0 < n ->
  exists smp x w',
    thompson_branch X c lb ub n w = (Ok (smp, x), w') /\ List.length x = d.
Proof.
  intros Sobol Rand RandInt Post D B W Lc Ll Lu N.
  unfold thompson_branch. rewrite W.
  destruct (Sobol (Z.of_nat d) n (rng w)) as (pert & g1 & E1 & L1 & R1); try lia.
  rewrite Nat2Z.id in R1.
  rewrite (bindM_run _ _ _ _ _ (draw_run _ _ _ _ E1)).
  destruct (map_rows_runs (affine_row lb ub)
              (fun r => List.length r = d) (fun r => List.length r = d))
    with (l := pert) as (pert' & E2 & L2 & R2).
  { intros p Hp. apply affine_row_runs; assumption. }
  { exact R1. }
  rewrite (bindM_run _ _ _ pert' _ (f_equal (fun r => (r, _)) E2)).
  destruct (div_int_small twenty (Z.of_nat d)) as (q & Eq); [lia|].
  assert (Ep : prob_perturb (Z.of_nat d) = Ok (min2 q one))
    by (unfold prob_perturb; rewrite Eq; reflexivity).
  rewrite (bindM_run _ _ _ _ _ (f_equal (fun r => (r, _)) Ep)).
  destruct (Rand n (Z.of_nat d) g1) as (u & g2 & E3 & L3 & R3); try lia.
  rewrite Nat2Z.id in R3.
  rewrite (bindM_run _ _ _ u (mkWorld (gp w) g2))
    by exact (draw_run _ (mkWorld (gp w) g1) _ _ E3).
  set (mask := map (map (fun v => tle v (of_float (cast float32 (min2 q one))))) u).
  assert (Sm : shaped (Z.to_nat n) d mask)
    by (apply shaped_map; split; assumption).
  pose proof (empty_rows_from_lt mask 0%nat) as Fi. fold (empty_rows mask) in Fi.
  simpl in Fi. destruct Sm as [Lm Fm]. rewrite Lm in Fi.
  destruct (RandInt 0 (Z.of_nat d - 1) (Z.of_nat (List.length (empty_rows mask))) g2)
    as (cols & g3 & E4 & L4 & R4); try lia.
  rewrite Nat2Z.id in L4.
  rewrite (bindM_run _ _ _ cols (mkWorld (gp w) g3))
    by exact (draw_run _ (mkWorld (gp w) g2) _ _ E4).
  destruct (set_entries_runs (Z.to_nat n) d (empty_rows mask) mask cols)
    as (mask' & E5 & S5); try assumption.
  { split; assumption. }
  { eapply Forall_impl; [|exact R4]. simpl. intros; lia. }
  rewrite (bindM_run _ _ _ mask' _ (f_equal (fun r => (r, _)) E5)).
  destruct (masked_assign_runs (Z.to_nat n) d (repeat c (Z.to_nat n)) mask' pert')
    as (X_cand & E6 & [L6 R6]); try assumption.
  { rewrite <- Lc. apply shaped_repeat. }
  { split; [exact (eq_trans L2 L1)|assumption]. }
  rewrite (bindM_run _ _ _ X_cand _ (f_equal (fun r => (r, _)) E6)).
  rewrite (bindM_run _ _ _ tt (mkWorld (set_training false (gp w)) g3)) by reflexivity.
  destruct (Post (set_training false (gp w)) X_cand g3) as (smp & g4 & E7 & L7).
  { reflexivity. }
  { destruct X_cand; [simpl in L6; lia|discriminate]. }
  rewrite (bindM_run _ _ _ smp (mkWorld (set_training false (gp w)) g4))
    by (unfold sample_posterior; simpl; rewrite E7; reflexivity).
  destruct (argmax_runs smp) as (idx & E8 & L8).
  { destruct smp; [simpl in L7; lia|discriminate]. }
  rewrite (bindM_run _ _ _ idx _ (f_equal (fun r => (r, _)) E8)).
  destruct (@row_runs X_cand idx) as (x & E9 & I9); [lia|].
  rewrite (bindM_run _ _ _ x _ (f_equal (fun r => (r, _)) E9)).
  exists smp, x, (mkWorld (set_training false (gp w)) g4).
  split; [reflexivity|]. rewrite Forall_forall in R6. auto.
Qed.

Lemma default_n_candidates_pos X : 0 < default_n_candidates X.
Proof. unfold default_n_candidates. lia. Qed.

Lemma generate_batch_runs state X Y bs nr rs w d :
  sobol_shape -> rand_shape -> randint_range -> posterior_shape ->
  (2 <= d)%nat -> Z.of_nat d < 2 ^ 53 ->
  X <> [] -> rectangular d X -> List.length Y = List.length X ->
  List.length (lengthscale (gp w)) = d ->
  domain_check X Y = Ok true ->
  exists x w',
    generate_batch state X Y bs None nr rs "ts" w = (Ok x, w') /\
    List.length x = d.
Proof.
  intros Sobol Rand RandInt Post D B NE R LY LS DC.
  destruct (trust_region_runs state (gp w) X Y d NE R LY LS D B)
    as (c & lb & ub & T & Lc & Ll & Lu).
  destruct (thompson_branch_runs X c lb ub (default_n_candidates X) w d)
    as (smp & x & w' & E & L); try assumption.
  { apply width_rectangular; assumption. }
  { apply default_n_candidates_pos. }
  exists x, w'. split; [|exact L].
  unfold generate_batch, generate_batch_locals, bindM, assert_, lift, get_model, ret.
  simpl. rewrite DC. simpl. rewrite T. simpl.
  unfold bindM in E |- *. rewrite E. reflexivity.
Qed.

(** *** The acquisition-function check *)

Lemma generate_batch_unbound state X Y bs n nr rs acqf w tr :
  In acqf [""; "t"; "s"]%string ->
  domain_check X Y = Ok true ->
  trust_region state (gp w) X Y = Ok tr ->
  generate_batch state X Y bs n nr rs acqf w = (Raise UnboundLocalError, w).
Proof.
  intros I D T.
  assert (S : str_in acqf "ts" = true) by (apply str_in_ts; simpl in *; tauto).
  assert (E : String.eqb acqf "ts" = false)
    by (destruct I as [<-|[<-|[<-|[]]]]; reflexivity).
  unfold generate_batch, generate_batch_locals, bindM, assert_, lift,
    get_model, ret, raise.
  rewrite S, D. simpl. rewrite T. destruct tr as [[c lb] ub]. rewrite E.
  reflexivity.
Qed.

(** C10.  The check [assert acqf in ("ts")] is a substring test on the
    string ["ts"]: it passes exactly for the four strings [""], ["t"],
    ["s"] and ["ts"], whereas membership in the one-element tuple
    [("ts",)] holds for ["ts"] only.  For each of [""], ["t"] and ["s"],
    when the second assertion passes and the trust region is computed
    without a library error, the Thompson-sampling branch is skipped,
    no draw is made, and [return X_next] raises [UnboundLocalError]. *)
Theorem acqf_assertion_is_substring_test
    state X Y bs n nr rs (acqf : string) w tr :
  (str_in acqf "ts" = true <-> In acqf [""; "t"; "s"; "ts"]%string) /\
  (in_tuple acqf ["ts"%string] = true <-> acqf = "ts"%string) /\
  (In acqf [""; "t"; "s"]%string ->
   domain_check X Y = Ok true ->
   trust_region state (gp w) X Y = Ok tr ->
   str_in acqf "ts" = true /\
   in_tuple acqf ["ts"%string] = false /\
   generate_batch state X Y bs n nr rs acqf w = (Raise UnboundLocalError, w)).
Proof.
  split; [apply str_in_ts|]. split.
  - unfold in_tuple. simpl. rewrite orb_false_r. apply String.eqb_eq.
  - intros I D T. split; [apply str_in_ts; simpl in *; tauto|]. split.
    + destruct I as [<-|[<-|[<-|[]]]]; reflexivity.
    + eapply generate_batch_unbound; eauto.
Qed.

(** *** The checks of the notebook's own *)

Lemma foreign_max_list l : foreign (max_list l).
Proof. destruct l; discriminate. Qed.

Lemma foreign_ceil x : foreign (ceil x).
Proof. destruct x; discriminate. Qed.

Lemma foreign_update_state state Y_next : foreign (update_state state Y_next).
Proof.
  unfold update_state. apply foreign_bind; [apply foreign_max_list|intros y].
  apply foreign_bind; [apply foreign_max_list|intros y']. discriminate.
Qed.

Lemma foreign_post_init d b : foreign (post_init_failure_tolerance d b).
Proof.
  unfold post_init_failure_tolerance.
  apply foreign_bind; [apply foreign_div_int|intros a].
  apply foreign_bind; [apply foreign_of_int|intros x].
  apply foreign_bind; [apply foreign_div_int|intros c].
  apply foreign_bind; [apply foreign_max_list|intros m]. apply foreign_ceil.
Qed.

Lemma foreign_TurboState_init d b l lmin lmax fc sc st bv rt :
  foreign (TurboState_init d b l lmin lmax fc sc st bv rt).
Proof.
  unfold TurboState_init.
  apply foreign_bind; [apply foreign_post_init|intros ft]. discriminate.
Qed.

Lemma next_query_assertion train_x train_y turbo_state verbose g :
  fst (next_query_via_TurBO train_x train_y turbo_state verbose g)
  = Raise AssertionError <->
  domain_check train_x train_y = Ok false.
Proof.
  unfold next_query_via_TurBO.
  pose proof (generate_batch_assertion turbo_state train_x train_y 1 None 10 512
                "ts" (mkWorld (next_query_model train_x train_y) g)) as H.
  destruct (generate_batch _ _ _ _ _ _ _ _ _) as [r w]. simpl in *.
  rewrite H. split; [intros [F|D]; [discriminate|exact D]|auto].
Qed.

(** C3, amended.  The notebook's own code checks its input in two
    places only, the two [assert] statements that open
    [generate_batch]: a call of [generate_batch] ends with
    [AssertionError] exactly when [acqf] is not a substring of ["ts"] or
    the test [X.min() >= 0.0 and X.max() <= 1.0 and
    torch.all(torch.isfinite(Y))] is false, and a call of
    [next_query_via_TurBO] exactly when that test is false.
    [update_state] and the constructor of [TurboState] never raise an
    exception of the notebook's own. *)
Theorem own_checks_are_the_two_assertions :
  (forall state Y_next, foreign (update_state state Y_next)) /\
  (forall d b l lmin lmax fc sc st bv rt,
     foreign (TurboState_init d b l lmin lmax fc sc st bv rt)) /\
  (forall state X Y bs n nr rs acqf w,
     fst (generate_batch state X Y bs n nr rs acqf w) = Raise AssertionError <->
     str_in acqf "ts" = false \/ domain_check X Y = Ok false) /\
  (forall train_x train_y turbo_state verbose g,
     fst (next_query_via_TurBO train_x train_y turbo_state verbose g)
     = Raise AssertionError <->
     domain_check train_x train_y = Ok false).
Proof.
  split; [exact foreign_update_state|].
  split; [exact foreign_TurboState_init|].
  split; [exact generate_batch_assertion|exact next_query_assertion].
Qed.

(** *** The model handed to [generate_batch] *)

Lemma next_query_model_lengthscale train_x train_y d :
  train_x <> [] -> rectangular d train_x ->
  lengthscale (next_query_model train_x train_y) = repeat init_lengthscale d.
Proof.
  intros NE R. simpl. rewrite (width_rectangular _ d NE R), Nat2Z.id. reflexivity.
Qed.

Lemma mode_step_hyperparameters m m' :
  mode_step m m' -> hyperparameters m' = hyperparameters m.
Proof. intros [-> | ->]; reflexivity. Qed.

(** C7.  [next_query_via_TurBO] runs no training iteration: the model
    object it hands to [generate_batch] has the hyper-parameters of a
    freshly constructed [ExactGPModel] (one initial lengthscale per
    input dimension, the initial mean, output scale and noise), although
    its [training_iter] is 2000, and the call leaves them unchanged.
    For well-shaped training data inside the unit cube (at least two
    input dimensions) and library generators that return tensors of the
    requested shapes, the call returns one query point: a single tensor
    of [d] coordinates, the outcome of [generate_batch] with its default
    arguments. *)
Theorem next_query_uses_fresh_model
    train_x train_y turbo_state verbose g (d : nat) :
  sobol_shape -> rand_shape -> randint_range -> posterior_shape ->
  (2 <= d)%nat -> Z.of_nat d < 2 ^ 53 ->
  train_x <> [] -> rectangular d train_x ->
  List.length train_y = List.length train_x ->
  domain_check train_x train_y = Ok true ->
  let model := next_query_model train_x train_y in
  hyperparameters model
  = (init_mean, repeat init_lengthscale d, init_outputscale, init_noise) /\
  hyperparameters model = hyperparameters (ExactGPModel_init train_x train_y) /\
  training_iter model = 2000 /\
  exists X_next w',
    generate_batch turbo_state train_x train_y 1 None 10 512 "ts"
      (mkWorld model g) = (Ok X_next, w') /\
    next_query_via_TurBO train_x train_y turbo_state verbose g
    = (Ok X_next, rng w') /\
    List.length X_next = d /\
    hyperparameters (gp w') = hyperparameters model.
Proof.
  intros Sobol Rand RandInt Post D B NE R LY DC model. subst model.
  pose proof (next_query_model_lengthscale train_x train_y d NE R) as LS.
  split; [unfold hyperparameters; rewrite LS; reflexivity|].
  split; [reflexivity|]. split; [reflexivity|].
  destruct (generate_batch_runs turbo_state train_x train_y 1 10 512
              (mkWorld (next_query_model train_x train_y) g) d)
    as (x & w' & E & L); try assumption.
  { simpl gp. rewrite LS. apply repeat_length. }
  exists x, w'. split; [exact E|]. split.
  - unfold next_query_via_TurBO. rewrite E. reflexivity.
  - split; [exact L|].
    pose proof (frames_generate_batch turbo_state train_x train_y 1 None 10 512
                  "ts" (mkWorld (next_query_model train_x train_y) g)) as F.
    rewrite E in F. simpl in F. apply mode_step_hyperparameters. exact F.
Qed.

End NotebookFacts.

(** ** The toy backend meets the contracts *)

Module ToyFacts.

Import ToyBackend.

Lemma uniform_in_unit g : in_unit (uniform g) = true.
Proof.
  unfold uniform. apply in_unit_fin. eexists. split; [reflexivity|].
  rewrite Qred_correct. pose proof (Z.mod_pos_bound g 1000 eq_refl).
  unfold Qle. cbn [Qnum Qden]. lia.
Qed.

Lemma draws_spec k : forall g,
  List.length (fst (draws k g)) = k /\
  Forall (fun v => in_unit v = true) (fst (draws k g)).
Proof.
  induction k as [|k IH]; intros g; simpl.
  - split; [reflexivity|constructor].
  - specialize (IH (lcg g)). destruct (draws k (lcg g)) as [r g2]. simpl in *.
    destruct IH as [L F]. split; [lia|constructor; [apply uniform_in_unit|exact F]].
Qed.

Lemma draw_rows_spec n k : forall g,
  shaped n k (fst (draw_rows n k g)) /\
  Forall (Forall (fun v => in_unit v = true)) (fst (draw_rows n k g)).
Proof.
  induction n as [|n IH]; intros g; simpl.
  - split; [split; [reflexivity|constructor]|constructor].
  - pose proof (draws_spec k g) as [L F]. destruct (draws k g) as [r g1].
    specialize (IH g1). destruct (draw_rows n k g1) as [R g2]. simpl in *.
    destruct IH as [[LR FR] FU].
    split; [split; [simpl; f_equal; exact LR|constructor; assumption]|constructor; assumption].
Qed.

Lemma draw_nats_spec k hi : forall g,
  0 < hi ->
  List.length (fst (draw_nats k hi g)) = k /\
  Forall (fun j => Z.of_nat j < hi) (fst (draw_nats k hi g)).
Proof.
  induction k as [|k IH]; intros g H; simpl.
  - split; [reflexivity|constructor].
  - specialize (IH (lcg g) H). destruct (draw_nats k hi (lcg g)) as [r g2].
    simpl in *. destruct IH as [L F].
    split; [lia|constructor; [|exact F]].
    pose proof (Z.mod_pos_bound (lcg g) hi H). lia.
Qed.

Lemma matrix_runs n d g :
  0 <= n -> 0 <= d ->
  exists t g', matrix n d g = (Some t, g') /\
               List.length t = Z.to_nat n /\ rectangular (Z.to_nat d) t /\
               Forall (Forall (fun v => in_unit v = true)) t.
Proof.
  intros Hn Hd. unfold matrix.
  destruct (Z.ltb_spec d 0); [lia|]. destruct (Z.ltb_spec n 0); [lia|]. simpl.
  pose proof (draw_rows_spec (Z.to_nat n) (Z.to_nat d) g) as [[L R] U].
  destruct (draw_rows _ _ g) as [t g']. simpl in *.
  exists t, g'. auto.
Qed.

Lemma toy_sobol_in_unit_cube : @sobol_in_unit_cube backend.
Proof.
  intros d n g t g' E. simpl in E. unfold sobol, matrix in E.
  destruct (d <? 1); [discriminate|].
  destruct ((d <? 0) || (n <? 0)); [discriminate|].
  pose proof (draw_rows_spec (Z.to_nat n) (Z.to_nat d) g) as [_ U].
  destruct (draw_rows _ _ g) as [t0 g0]. injection E as <- <-. exact U.
Qed.

Lemma toy_sobol_shape : @sobol_shape backend.
Proof.
  intros d n g Hd Hn. simpl. unfold sobol.
  destruct (Z.ltb_spec d 1); [lia|].
  destruct (matrix_runs n d g) as (t & g' & E & L & R & _); try lia.
  exists t, g'. auto.
Qed.

Lemma toy_rand_shape : @rand_shape backend.
Proof.
  intros n d g Hn Hd. simpl.
  destruct (matrix_runs n d g) as (t & g' & E & L & R & _); try lia.
  exists t, g'. auto.
Qed.

Lemma toy_randint_range : @randint_range backend.
Proof.
  intros lo hi k g Hlo Hk. simpl. unfold indices.
  destruct (Z.leb_spec hi lo); [lia|]. destruct (Z.ltb_spec k 0); [lia|]. simpl.
  pose proof (draw_nats_spec (Z.to_nat k) (hi - lo) g) as [L F]; [lia|].
  destruct (draw_nats _ _ g) as [t g']. simpl in *.
  eexists. exists g'. split; [reflexivity|].
  split; [rewrite length_map; exact L|].
  apply Forall_map. eapply Forall_impl; [|exact F]. simpl. intros j Hj. lia.
Qed.

Lemma toy_posterior_shape : @posterior_shape backend.
Proof.
  intros m X_cand g T NE. simpl. unfold sample. rewrite T.
  pose proof (draws_spec (List.length X_cand) g) as [L _].
  destruct (draws _ g) as [t g']. simpl in *. exists t, g'. auto.
Qed.

End ToyFacts.

(** ** Runs on concrete inputs *)

(** C3, as stated, fails: with a coordinate 1.5 in [X] the call of
    [generate_batch] ends with the [AssertionError] of the second
    [assert] statement of the notebook, before any library draw. *)
Lemma generate_batch_raises_own_assertion :
  domain_check Examples.X2_outside Examples.Y2 = Ok false /\
  @generate_batch ToyBackend.backend Examples.state2 Examples.X2_outside
    Examples.Y2 1 None 10 512 "ts" Examples.world2
  = (Raise AssertionError, Examples.world2).
Proof. split; vm_compute; reflexivity. Qed.

Lemma acqf_assertion_is_substring_test_witness :
  str_in "t" "ts" = true /\
  in_tuple "t" ["ts"%string] = false /\
  @generate_batch ToyBackend.backend Examples.state2 Examples.X2 Examples.Y2
    1 None 10 512 "t" Examples.world2
  = (Raise UnboundLocalError, Examples.world2).
Proof.
  refine (proj2 (proj2 (@acqf_assertion_is_substring_test ToyBackend.backend
            Examples.state2 Examples.X2 Examples.Y2 1 None 10 512 "t"
            Examples.world2 Examples.region2)) _ _ _).
  - simpl. auto.
  - vm_compute. reflexivity.
  - vm_compute. reflexivity.
Defined.

(** The run of [generate_batch] on the example inputs returns a point of
    the unit square. *)
Lemma generate_batch_in_unit_cube_example :
  @generate_batch ToyBackend.backend Examples.state2 Examples.X2 Examples.Y2
    1 (Some 4) 10 512 "ts" Examples.world2
  = (Ok Examples.next2, Examples.after2) /\
  Forall (fun v => in_unit v = true) Examples.next2.
Proof.
  assert (E : @generate_batch ToyBackend.backend Examples.state2 Examples.X2
                Examples.Y2 1 (Some 4) 10 512 "ts" Examples.world2
              = (Ok Examples.next2, Examples.after2))
    by (vm_compute; reflexivity).
  split; [exact E|].
  apply (@generate_batch_in_unit_cube ToyBackend.backend Examples.state2
           Examples.X2 Examples.Y2 1 (Some 4) 10 512 "ts" Examples.world2
           Examples.next2 Examples.after2).
  - exact ToyFacts.toy_sobol_in_unit_cube.
  - reflexivity.
  - intros wts W. vm_compute in W. injection W as <-. repeat constructor.
  - exact E.
Qed.

Lemma next_query_uses_fresh_model_witness :
  exists X_next w',
    @generate_batch ToyBackend.backend Examples.state2 Examples.X2 Examples.Y2
      1 None 10 512 "ts" Examples.world2 = (Ok X_next, w') /\
    @next_query_via_TurBO ToyBackend.backend Examples.X2 Examples.Y2
      Examples.state2 true 7 = (Ok X_next, rng w') /\
    List.length X_next = 2%nat /\
    hyperparameters (gp w')
    = hyperparameters (@next_query_model ToyBackend.backend Examples.X2 Examples.Y2).
Proof.
  refine (proj2 (proj2 (proj2
    (@next_query_uses_fresh_model ToyBackend.backend Examples.X2 Examples.Y2
       Examples.state2 true 7 2%nat
       ToyFacts.toy_sobol_shape ToyFacts.toy_rand_shape
       ToyFacts.toy_randint_range ToyFacts.toy_posterior_shape
       _ _ _ _ _ _)))).
  - apply le_n.
  - reflexivity.
  - discriminate.
  - repeat constructor.
  - reflexivity.
  - vm_compute. reflexivity.
Defined.

(** ** The driver loop *)

(** C2: the code at a failing input.  With the outputs 1.0 in the first
    data file, 2.0 in the second and 3.0 in the CSV file, the state
    created for the run has [best_value] 1.0, the maximum of the first
    file alone, strictly below 3.0, the maximum of the loaded outputs
    that the same iteration passes to [next_query_via_TurBO]. *)
Theorem run_state_best_value_first_file :
  exists state,
    Driver.run_state 1 Examples.three_sources = Ok state /\
    best_value state = one /\
    Driver.torch_max (Driver.loaded_outputs Examples.three_sources)
    = Ok Examples.three /\
    ltb (best_value state) Examples.three = true.
Proof.
  eexists. split; [vm_compute; reflexivity|].
  split; [reflexivity|]. split; vm_compute; reflexivity.
Qed.
